(** * A shallow embedding of the 6502 subset emulator [emu.c]

    The emulator keeps its whole state in C globals: the program counter,
    five 8-bit registers and a 64 kB byte array.  The embedding threads a
    record of those globals (plus the two output streams the program
    writes to) through a small state monad whose results also record a
    call to [exit] and an access outside the array [m].

    Machine integers are modelled as [Z]; every conversion to a fixed
    width C type is written out ([uint8_t], [uint16_t], [int8_t]). *)

From Stdlib Require Import ZArith String Ascii Lia.
From Stdlib Require Import HexadecimalString HexadecimalN HexadecimalPos.
From Stdlib.Strings Require Import Byte.
From stdpp Require Import base list.

Local Open Scope Z_scope.

(** ** Fixed-width integer conversions *)

(** Conversion to [uint8_t]: reduction modulo 2^8. *)
Definition uint8_t (z : Z) : Z := z mod 256.

(** Conversion to [uint16_t]: reduction modulo 2^16. *)
Definition uint16_t (z : Z) : Z := z mod 65536.

(** Conversion to [int8_t]: the low eight bits read as two's complement. *)
Definition int8_t (z : Z) : Z :=
  let b := z mod 256 in if b <? 128 then b else b - 256.

(** ** Flag bit positions in the P register

    [enum { CF=0,ZF,IF,DF,BF,XX,VF,NF }].  [IF] is a reserved word of the
    proof language, hence [IF_]. *)
Definition CF : Z := 0.
Definition ZF : Z := 1.
Definition IF_ : Z := 2.
Definition DF : Z := 3.
Definition BF : Z := 4.
Definition XX : Z := 5.
Definition VF : Z := 6.
Definition NF : Z := 7.

(** ** Processor and memory state *)

(** The globals of [emu.c], together with the two streams written by
    [putchar]/[printf] and by [fprintf(stderr, ...)]. *)
Record state : Type := mkState {
  pc : Z;            (* uint16_t pc *)
  a : Z;             (* uint8_t a *)
  x : Z;             (* uint8_t x *)
  y : Z;             (* uint8_t y *)
  s : Z;             (* uint8_t s *)
  p : Z;             (* uint8_t p *)
  m : list Z;        (* uint8_t m[65536] *)
  stdout : string;
  stderr : string
}.

Definition with_pc (v : Z) (st : state) : state :=
  mkState v (a st) (x st) (y st) (s st) (p st) (m st) (stdout st) (stderr st).
Definition with_a (v : Z) (st : state) : state :=
  mkState (pc st) v (x st) (y st) (s st) (p st) (m st) (stdout st) (stderr st).
Definition with_x (v : Z) (st : state) : state :=
  mkState (pc st) (a st) v (y st) (s st) (p st) (m st) (stdout st) (stderr st).
Definition with_y (v : Z) (st : state) : state :=
  mkState (pc st) (a st) (x st) v (s st) (p st) (m st) (stdout st) (stderr st).
Definition with_s (v : Z) (st : state) : state :=
  mkState (pc st) (a st) (x st) (y st) v (p st) (m st) (stdout st) (stderr st).
Definition with_p (v : Z) (st : state) : state :=
  mkState (pc st) (a st) (x st) (y st) (s st) v (m st) (stdout st) (stderr st).
Definition with_m (v : list Z) (st : state) : state :=
  mkState (pc st) (a st) (x st) (y st) (s st) (p st) v (stdout st) (stderr st).
Definition with_stdout (v : string) (st : state) : state :=
  mkState (pc st) (a st) (x st) (y st) (s st) (p st) (m st) v (stderr st).
Definition with_stderr (v : string) (st : state) : state :=
  mkState (pc st) (a st) (x st) (y st) (s st) (p st) (m st) (stdout st) v.

(** Number of elements of the array [m]. *)
Definition MEMSIZE : Z := 65536.

(** Static storage before [main] runs: everything is zero. *)
Definition initial : state :=
  mkState 0 0 0 0 0 0 (replicate (Z.to_nat MEMSIZE) 0) EmptyString EmptyString.

(** ** The monad of emulator computations *)

(** What a computation can do: return a value, terminate the process
    through [exit], or index [m] outside its bounds (undefined in C). *)
Inductive outcome (A : Type) : Type :=
| Ret (v : A) (st : state)
| Exit (code : Z) (st : state)
| OutOfBounds.
Arguments Ret {A} v st.
Arguments Exit {A} code st.
Arguments OutOfBounds {A}.

Definition M (A : Type) : Type := state -> outcome A.

Definition ret {A} (v : A) : M A := fun st => Ret v st.

Definition bind {A B} (c : M A) (k : A -> M B) : M B :=
  fun st =>
    match c st with
    | Ret v st' => k v st'
    | Exit code st' => Exit code st'
    | OutOfBounds => OutOfBounds
    end.

Declare Scope emu_scope.
Delimit Scope emu_scope with emu.
Bind Scope emu_scope with M.
Notation "v <- c ;; k" := (bind c (fun v => k))
  (at level 100, c at next level, k at level 200, right associativity)
  : emu_scope.
Notation "c ;; k" := (bind c (fun _ => k))
  (at level 100, k at level 200, right associativity) : emu_scope.
Local Open Scope emu_scope.

Definition gets {A} (f : state -> A) : M A := fun st => Ret (f st) st.
Definition modify (f : state -> state) : M unit := fun st => Ret tt (f st).

(** [exit(code)]: the process ends, nothing after it runs. *)
Definition exit (code : Z) : M unit := fun st => Exit code st.

(** Observations on outcomes. *)
Definition ret_val {A} (o : outcome A) : option A :=
  match o with Ret v _ => Some v | _ => None end.
Definition exit_code {A} (o : outcome A) : option Z :=
  match o with Exit code _ => Some code | _ => None end.
Definition final_state {A} (o : outcome A) : option state :=
  match o with Ret _ st | Exit _ st => Some st | OutOfBounds => None end.

(** ** Array accesses *)

(** The rvalue [m[i]] for an [int] index [i]. *)
Definition m_get (i : Z) : M Z := fun st =>
  if 0 <=? i then
    match m st !! Z.to_nat i with
    | Some b => Ret b st
    | None => OutOfBounds
    end
  else OutOfBounds.

(** The assignment [m[i] = v]; the stored value is converted to the
    element type. *)
Definition m_set (i : Z) (v : Z) : M unit := fun st =>
  if 0 <=? i then
    match m st !! Z.to_nat i with
    | Some _ => Ret tt (with_m (<[Z.to_nat i := uint8_t v]> (m st)) st)
    | None => OutOfBounds
    end
  else OutOfBounds.

(** ** Output streams *)

Definition char_of (c : Z) : ascii := ascii_of_N (Z.to_N (uint8_t c)).

Definition putchar (c : Z) : M unit :=
  modify (fun st => with_stdout (stdout st ++ String (char_of c) EmptyString) st).

Definition printf (text : string) : M unit :=
  modify (fun st => with_stdout (stdout st ++ text) st).

Definition fprintf_stderr (text : string) : M unit :=
  modify (fun st => with_stderr (stderr st ++ text) st).

Fixpoint zeros (n : nat) : string :=
  match n with
  | O => EmptyString
  | S k => String "0" (zeros k)
  end.

(** The conversion [%0<width>x]: lower-case hexadecimal, padded on the
    left with zeros up to [width] digits. *)
Definition fmt_x (width : nat) (v : Z) : string :=
  let digits := NilZero.string_of_uint (N.to_hex_uint (Z.to_N v)) in
  (zeros (width - String.length digits) ++ digits)%string.

Definition newline : string := String "010" EmptyString.

(** ** Helper functions to access memory *)

Definition r8 (addr : Z) : M Z :=
  let addr := uint16_t addr in
  b <- m_get addr ;;
  ret (uint8_t b).

Definition r16 (addr : Z) : M Z :=
  let addr := uint16_t addr in
  lo <- m_get addr ;;
  hi <- m_get (addr + 1) ;;
  ret (uint16_t (lo + Z.shiftl (uint16_t hi) 8)).

Definition w8 (addr val : Z) : M unit :=
  let addr := uint16_t addr in
  let val := uint8_t val in
  if addr =? 0xc000 then putchar val
  else m_set addr val.

Definition w16 (addr val : Z) : M unit :=
  let addr := uint16_t addr in
  let val := uint16_t val in
  m_set addr (Z.land val 0xFF) ;;
  m_set (addr + 1) (Z.shiftr val 8).

(** ** Helper functions for the processor flags *)

Definition assign_p (v : Z) : M unit := modify (with_p (uint8_t v)).
Definition assign_a (v : Z) : M unit := modify (with_a (uint8_t v)).
Definition assign_x (v : Z) : M unit := modify (with_x (uint8_t v)).
Definition assign_y (v : Z) : M unit := modify (with_y (uint8_t v)).
Definition assign_s (v : Z) : M unit := modify (with_s (uint8_t v)).
Definition assign_pc (v : Z) : M unit := modify (with_pc (uint16_t v)).

Definition set_z : M unit :=
  p0 <- gets p ;; assign_p (Z.lor p0 (Z.shiftl 1 ZF)).

Definition clr_z : M unit :=
  p0 <- gets p ;; assign_p (Z.land p0 (Z.lnot (Z.shiftl 1 ZF))).

Definition set_n : M unit :=
  p0 <- gets p ;; assign_p (Z.lor p0 (Z.shiftl 1 NF)).

Definition clr_n : M unit :=
  p0 <- gets p ;; assign_p (Z.land p0 (Z.lnot (Z.shiftl 1 NF))).

Definition get_c : M Z :=
  p0 <- gets p ;;
  if negb (Z.land p0 (Z.shiftl 1 CF) =? 0) then ret 1 else ret 0.

Definition set_c : M unit :=
  p0 <- gets p ;; assign_p (Z.lor p0 (Z.shiftl 1 CF)).

Definition clr_c : M unit :=
  p0 <- gets p ;; assign_p (Z.land p0 (Z.lnot (Z.shiftl 1 CF))).

(** ** The cases of the opcode switch *)

(** [case 0x00]: BRK leaves the emulator. *)
Definition BRK : M unit := exit 0.

(** [case 0xea]: NOP. *)
Definition NOP : M unit :=
  pc0 <- gets pc ;; assign_pc (pc0 + 1).

(** [case 0x18]: CLC. *)
Definition CLC : M unit :=
  clr_c ;;
  pc0 <- gets pc ;; assign_pc (pc0 + 1).

(** Shared tail of LDA and ADC: Z and N from the accumulator. *)
Definition flags_from_a : M unit :=
  a0 <- gets a ;;
  (if a0 =? 0 then set_z else clr_z) ;;
  a1 <- gets a ;;
  (if negb (Z.land a1 0x80 =? 0) then set_n else clr_n).

(** [case 0xA9]: LDA #xx. *)
Definition LDA_imm : M unit :=
  pc0 <- gets pc ;;
  param8 <- r8 (pc0 + 1) ;;
  assign_a param8 ;;
  flags_from_a ;;
  pc1 <- gets pc ;; assign_pc (pc1 + 2).

(** [case 0x8D]: STA xxxx. *)
Definition STA_abs : M unit :=
  pc0 <- gets pc ;;
  param16 <- r16 (pc0 + 1) ;;
  a0 <- gets a ;;
  w8 param16 a0 ;;
  pc1 <- gets pc ;; assign_pc (pc1 + 3).

(** [case 0x69]: ADC #xx. *)
Definition ADC_imm : M unit :=
  pc0 <- gets pc ;;
  param8 <- r8 (pc0 + 1) ;;
  a0 <- gets a ;;
  c <- get_c ;;
  assign_a (a0 + param8 + c) ;;
  flags_from_a ;;
  pc1 <- gets pc ;; assign_pc (pc1 + 2).

(** [case 0xC9]: CMP #xx, three independent [if] statements. *)
Definition CMP_imm : M unit :=
  pc0 <- gets pc ;;
  param8 <- r8 (pc0 + 1) ;;
  a0 <- gets a ;;
  (if a0 =? param8 then set_z ;; set_c else ret tt) ;;
  a1 <- gets a ;;
  (if a1 <? param8 then clr_z ;; clr_c else ret tt) ;;
  a2 <- gets a ;;
  (if a2 >? param8 then clr_z ;; set_c else ret tt) ;;
  pc1 <- gets pc ;; assign_pc (pc1 + 2).

(** [case 0x90]: BCC rel. *)
Definition BCC_rel : M unit :=
  pc0 <- gets pc ;;
  param8 <- r8 (pc0 + 1) ;;
  c <- get_c ;;
  if c =? 1 then
    pc1 <- gets pc ;; assign_pc (pc1 + 2)
  else
    let offset := int8_t param8 in
    pc1 <- gets pc ;; assign_pc (pc1 + 2 + offset).

(** [default]: report the opcode on standard output and leave with 1. *)
Definition unknown_opcode (opcode : Z) : M unit :=
  pc0 <- gets pc ;;
  printf ("Unknown opcode " ++ fmt_x 2 opcode ++ " at address "
          ++ fmt_x 4 pc0 ++ newline)%string ;;
  exit 1.

(** The [switch (opcode)] statement. *)
Definition exec (opcode : Z) : M unit :=
  if opcode =? 0x00 then BRK
  else if opcode =? 0xea then NOP
  else if opcode =? 0x18 then CLC
  else if opcode =? 0xA9 then LDA_imm
  else if opcode =? 0x8D then STA_abs
  else if opcode =? 0x69 then ADC_imm
  else if opcode =? 0xC9 then CMP_imm
  else if opcode =? 0x90 then BCC_rel
  else unknown_opcode opcode.

Definition trace_fetch (opcode : Z) : M unit :=
  pc0 <- gets pc ;;
  fprintf_stderr ("PC: " ++ fmt_x 4 pc0 ++ " opcode = "
                  ++ fmt_x 2 opcode ++ " ")%string.

Definition trace_regs : M unit :=
  st <- gets (fun st => st) ;;
  fprintf_stderr ("a: " ++ fmt_x 2 (a st) ++ " x: " ++ fmt_x 2 (x st)
                  ++ " y: " ++ fmt_x 2 (y st) ++ " s: 01" ++ fmt_x 2 (s st)
                  ++ " p: " ++ fmt_x 2 (p st) ++ newline)%string.

(** One iteration of the body of [while (1)]. *)
Definition step : M unit :=
  pc0 <- gets pc ;;
  opcode <- r8 pc0 ;;
  trace_fetch opcode ;;
  exec opcode ;;
  trace_regs.

(** [n] iterations of the emulation loop.  [Ret] means that the loop is
    still running after [n] iterations. *)
Fixpoint loop (n : nat) : M unit :=
  match n with
  | O => ret tt
  | S k => step ;; loop k
  end.

(** ** Start-up *)

(** [read(fd, m, 65536)] on a zero-filled array.  [image] is what that
    one call stored: its result is not looked at, so when it delivers
    fewer bytes than the file has, [image] is that shorter prefix.  At
    most 65536 bytes are stored; behind them the zeros stay. *)
Definition load (image : list byte) : list Z :=
  let bytes := (fun b => Z.of_N (Byte.to_N b)) <$> take (Z.to_nat MEMSIZE) image in
  bytes ++ replicate (Z.to_nat MEMSIZE - length image) 0.

(** Setting the reset vector, taking [pc] from it and clearing the
    registers. *)
Definition reset : M unit :=
  w16 0xFFFC 0 ;;
  v <- r16 0xFFFC ;;
  assign_pc v ;;
  assign_a 0 ;; assign_x 0 ;; assign_y 0 ;; assign_s 0 ;; assign_p 0.

(** The part of [main] between a successful [open] and the loop. *)
Definition boot (image : list byte) : M unit :=
  modify (with_m (load image)) ;;
  reset.

(** [main], run for [n] iterations of its loop.  The argument is either
    the reason why [open] failed or the bytes that [read] delivered. *)
Definition main (file : string + list byte) (n : nat) : outcome unit :=
  match file with
  | inl reason =>
      (fprintf_stderr ("open: " ++ reason ++ newline)%string ;; exit 1) initial
  | inr image => (boot image ;; loop n) initial
  end.

(** The state in which the loop is entered. *)
Definition boot_state (image : list byte) : state :=
  match boot image initial with
  | Ret _ st => st
  | _ => initial
  end.

(** The example program of the tutorial:
    [CLC; LDA #0x41; loop: STA 0xC000; ADC #0x01; CMP #0x5B; BCC loop; BRK]. *)
Definition alphabet : list byte :=
  [x18; xa9; x41; x8d; x00; xc0; x69; x01; xc9; x5b; x90; xf7; x00].

(** An image that starts with BCC -4 and has the STA opcode at 0xFFFE. *)
Definition sta_at_top : list byte :=
  [x90; xfc] ++ replicate (Z.to_nat 65532) x00 ++ [x8d].

(** * Notions used by the statements *)

(** The opcode byte that the next iteration fetches. *)
Definition opcode_at_pc (st : state) (opcode : Z) : Prop :=
  ret_val (r8 (pc st) st) = Some opcode.

(** The one-byte operand that follows the opcode. *)
Definition operand8 (st : state) (v : Z) : Prop :=
  ret_val (r8 (pc st + 1) st) = Some v.

(** The two-byte operand that follows the opcode. *)
Definition operand16 (st : state) (addr : Z) : Prop :=
  ret_val (r16 (pc st + 1) st) = Some addr.

(** Bit [bit] of the P register. *)
Definition flag (bit : Z) (st : state) : bool := Z.testbit (p st) bit.

(** An element of type [uint8_t]. *)
Definition is_byte (b : Z) : bool := (0 <=? b) && (b <? 256).

(** The array has its declared size and element type. *)
Definition mem_ok (st : state) : Prop :=
  Z.of_nat (length (m st)) = MEMSIZE /\ forallb is_byte (m st) = true.

(** [v | (1 << k)] and [v & ~(1 << k)], stored back into the 8-bit
    register. *)
Definition setbit (k v : Z) : Z := uint8_t (Z.lor v (Z.shiftl 1 k)).
Definition clrbit (k v : Z) : Z := uint8_t (Z.land v (Z.lnot (Z.shiftl 1 k))).

(** What LDA and ADC leave in P for an accumulator value [acc]. *)
Definition nz_flags (acc v : Z) : Z :=
  let v1 := if acc =? 0 then setbit ZF v else clrbit ZF v in
  if negb (Z.land acc 0x80 =? 0) then setbit NF v1 else clrbit NF v1.

(** What the three [if] statements of CMP leave in P. *)
Definition cmp_flags (acc param8 v : Z) : Z :=
  let v1 := if acc =? param8 then setbit CF (setbit ZF v) else v in
  let v2 := if acc <? param8 then clrbit CF (clrbit ZF v1) else v1 in
  if acc >? param8 then setbit CF (clrbit ZF v2) else v2.

(** The value of [get_c()]. *)
Definition carry_in (v : Z) : Z :=
  if negb (Z.land v (Z.shiftl 1 CF) =? 0) then 1 else 0.

(** The state after the first and after the second [fprintf] of an
    iteration. *)
Definition traced_fetch (opcode : Z) (st : state) : state :=
  with_stderr (stderr st ++ "PC: " ++ fmt_x 4 (pc st) ++ " opcode = "
               ++ fmt_x 2 opcode ++ " ")%string st.

Definition traced_regs (st : state) : state :=
  with_stderr (stderr st ++ "a: " ++ fmt_x 2 (a st) ++ " x: " ++ fmt_x 2 (x st)
               ++ " y: " ++ fmt_x 2 (y st) ++ " s: 01" ++ fmt_x 2 (s st)
               ++ " p: " ++ fmt_x 2 (p st) ++ newline)%string st.

(** The state after [n] iterations on [image], when the emulator is
    still running then. *)
Definition run_state (image : list byte) (n : nat) : state :=
  match main (inr image) n with
  | Ret _ st => st
  | _ => initial
  end.

(** Reading back what [%x] printed. *)
Definition hex_value (text : string) : option Z :=
  option_map (fun u => Z.of_N (N.of_hex_uint u)) (NilZero.uint_of_string text).

(** The opcodes that have a [case] in the switch. *)
Definition supported : list Z :=
  [0x00; 0xEA; 0x18; 0xA9; 0x8D; 0x69; 0xC9; 0x90].

(** A relation between the state before a computation and the state in
    which it returns or exits. *)
Definition preserves (R : state -> state -> Prop) {A} (c : M A) : Prop :=
  forall st,
    match c st with
    | Ret _ st' | Exit _ st' => R st st'
    | OutOfBounds => True
    end.

(** Bits 2 to 6 of P (I, D, B, unused, V) are the same in both states. *)
Definition same_idbxv (st st' : state) : Prop :=
  forall i, 2 <= i <= 6 -> Z.testbit (p st') i = Z.testbit (p st) i.

(** The array keeps its size and element type. *)
Definition keeps_mem_ok (st st' : state) : Prop := mem_ok st -> mem_ok st'.

(** The states the emulator passes through from [st0]: the state after
    each iteration, whether the iteration returned or called [exit]. *)
Inductive reachable (st0 : state) : state -> Prop :=
| reach_start : reachable st0 st0
| reach_next st st' :
    reachable st0 st -> step st = Ret tt st' -> reachable st0 st'
| reach_exit st code st' :
    reachable st0 st -> step st = Exit code st' -> reachable st0 st'.

(** The contract of write16 in the words of the specification: the low
    byte through [w8] at [addr], then the high byte through [w8] at
    [addr + 1]. *)
Definition write16_spec (addr word : Z) : M unit :=
  let word := uint16_t word in
  w8 addr (Z.land word 0xFF) ;;
  w8 (addr + 1) (Z.shiftr word 8).

(** A computation that never calls [exit], with [R] between the state
    before and the state in which it returns. *)
Definition returns (R : state -> state -> Prop) {A} (c : M A) : Prop :=
  forall st,
    match c st with
    | Ret _ st' => R st st'
    | Exit _ _ => False
    | OutOfBounds => True
    end.

Definition is_word (w : Z) : bool := (0 <=? w) && (w <? 65536).

(** Every register holds a value of its C type. *)
Definition regs_ok (st : state) : Prop :=
  is_word (pc st) = true /\ is_byte (a st) = true /\ is_byte (x st) = true /\
  is_byte (y st) = true /\ is_byte (s st) = true /\ is_byte (p st) = true.

(** Registers and array are as their C declarations say. *)
Definition wf_state (st : state) : Prop := regs_ok st /\ mem_ok st.

(** The index registers and the stack pointer are the same in both
    states. *)
Definition same_xys (st st' : state) : Prop :=
  x st' = x st /\ y st' = y st /\ s st' = s st.

(** The array cell behind the output device is the same in both states. *)
Definition same_device_cell (st st' : state) : Prop :=
  m st' !! Z.to_nat 0xC000 = m st !! Z.to_nat 0xC000.

(** The text of the first and of the second [fprintf] of an iteration. *)
Definition trace_fetch_text (pc0 opcode : Z) : string :=
  ("PC: " ++ fmt_x 4 pc0 ++ " opcode = " ++ fmt_x 2 opcode ++ " ")%string.

Definition trace_regs_text (st : state) : string :=
  ("a: " ++ fmt_x 2 (a st) ++ " x: " ++ fmt_x 2 (x st)
   ++ " y: " ++ fmt_x 2 (y st) ++ " s: 01" ++ fmt_x 2 (s st)
   ++ " p: " ++ fmt_x 2 (p st) ++ newline)%string.

(** Array and program output are the same in both states. *)
Definition same_mem_out (st st' : state) : Prop :=
  m st' = m st /\ stdout st' = stdout st.

(** * Properties *)

(** ** Integer conversions *)

Lemma uint8_t_range z : 0 <= uint8_t z < 256.
Proof. unfold uint8_t. apply Z.mod_pos_bound. lia. Qed.

Lemma uint16_t_range z : 0 <= uint16_t z < 65536.
Proof. unfold uint16_t. apply Z.mod_pos_bound. lia. Qed.

Lemma uint8_t_small z : 0 <= z < 256 -> uint8_t z = z.
Proof. intros. unfold uint8_t. apply Z.mod_small. lia. Qed.

Lemma uint16_t_small z : 0 <= z < 65536 -> uint16_t z = z.
Proof. intros. unfold uint16_t. apply Z.mod_small. lia. Qed.

Lemma uint8_t_idem z : uint8_t (uint8_t z) = uint8_t z.
Proof. apply uint8_t_small, uint8_t_range. Qed.

Lemma int8_t_range z : -128 <= int8_t z <= 127.
Proof.
  unfold int8_t. pose proof (Z.mod_pos_bound z 256 ltac:(lia)).
  cbv zeta. destruct (Z.ltb_spec (z mod 256) 128); lia.
Qed.

Lemma int8_t_congr z : (int8_t z - z) mod 256 = 0.
Proof.
  unfold int8_t. cbv zeta. destruct (Z.ltb_spec (z mod 256) 128).
  - rewrite Zminus_mod, Z.mod_mod, Z.sub_diag by lia. reflexivity.
  - replace (z mod 256 - 256 - z) with (z mod 256 - z + (-1) * 256) by lia.
    rewrite Z.mod_add, Zminus_mod, Z.mod_mod, Z.sub_diag by lia. reflexivity.
Qed.

Lemma uint8_t_testbit z i :
  0 <= i -> Z.testbit (uint8_t z) i = (i <? 8) && Z.testbit z i.
Proof.
  intros Hi. unfold uint8_t. change 256 with (2 ^ 8).
  destruct (Z.ltb_spec i 8).
  - now rewrite Z.mod_pow2_bits_low.
  - now rewrite Z.mod_pow2_bits_high.
Qed.

Lemma bit_testbit k i : 0 <= k -> 0 <= i -> Z.testbit (Z.shiftl 1 k) i = (i =? k).
Proof.
  intros Hk Hi. rewrite Z.shiftl_1_l.
  destruct (Z.eqb_spec i k) as [->|Hne].
  - now apply Z.pow2_bits_true.
  - apply Z.pow2_bits_false. congruence.
Qed.

Lemma setbit_testbit k v i :
  0 <= k -> 0 <= i ->
  Z.testbit (setbit k v) i = (i <? 8) && (Z.testbit v i || (i =? k)).
Proof.
  intros. unfold setbit.
  now rewrite uint8_t_testbit, Z.lor_spec, bit_testbit.
Qed.

Lemma clrbit_testbit k v i :
  0 <= k -> 0 <= i ->
  Z.testbit (clrbit k v) i = (i <? 8) && (Z.testbit v i && negb (i =? k)).
Proof.
  intros. unfold clrbit.
  now rewrite uint8_t_testbit, Z.land_spec, Z.lnot_spec, bit_testbit.
Qed.

(** ** Reading memory *)

Lemma r8_unfold addr st :
  r8 addr st =
  match m st !! Z.to_nat (uint16_t addr) with
  | Some b => Ret (uint8_t b) st
  | None => OutOfBounds
  end.
Proof.
  unfold r8, bind, m_get, ret.
  destruct (Z.leb_spec 0 (uint16_t addr)) as [_|H].
  - now destruct (m st !! Z.to_nat (uint16_t addr)).
  - pose proof (uint16_t_range addr). lia.
Qed.

(** [r8] only looks at the array: any state with the same memory reads
    the same byte, and is left as it was. *)
Lemma r8_ret_val addr st v :
  ret_val (r8 addr st) = Some v ->
  forall st', m st' = m st -> r8 addr st' = Ret v st'.
Proof.
  intros H st' Hm. revert H. rewrite !r8_unfold, Hm.
  destruct (m st !! Z.to_nat (uint16_t addr)); simpl; congruence.
Qed.

Lemma r8_byte addr st v : ret_val (r8 addr st) = Some v -> uint8_t v = v.
Proof.
  rewrite r8_unfold.
  destruct (m st !! Z.to_nat (uint16_t addr)); simpl; intros [= <-].
  apply uint8_t_idem.
Qed.

Lemma r16_ret_val addr st v :
  ret_val (r16 addr st) = Some v ->
  forall st', m st' = m st -> r16 addr st' = Ret v st'.
Proof.
  intros H st' Hm. revert H. unfold r16, bind, m_get, ret. rewrite Hm.
  destruct (0 <=? uint16_t addr); [|discriminate].
  destruct (m st !! Z.to_nat (uint16_t addr)); [|discriminate].
  rewrite Hm.
  destruct (0 <=? uint16_t addr + 1); [|discriminate].
  destruct (m st !! Z.to_nat (uint16_t addr + 1)); [|discriminate].
  simpl. congruence.
Qed.

(** ** Pure readings of the flag helpers *)

Lemma set_z_run st : set_z st = Ret tt (with_p (setbit ZF (p st)) st).
Proof. reflexivity. Qed.
Lemma clr_z_run st : clr_z st = Ret tt (with_p (clrbit ZF (p st)) st).
Proof. reflexivity. Qed.
Lemma set_n_run st : set_n st = Ret tt (with_p (setbit NF (p st)) st).
Proof. reflexivity. Qed.
Lemma clr_n_run st : clr_n st = Ret tt (with_p (clrbit NF (p st)) st).
Proof. reflexivity. Qed.
Lemma set_c_run st : set_c st = Ret tt (with_p (setbit CF (p st)) st).
Proof. reflexivity. Qed.
Lemma clr_c_run st : clr_c st = Ret tt (with_p (clrbit CF (p st)) st).
Proof. reflexivity. Qed.
Lemma get_c_run st : get_c st = Ret (carry_in (p st)) st.
Proof. unfold get_c, carry_in, bind, gets, ret. now destruct (negb _). Qed.

Lemma flags_from_a_run st :
  flags_from_a st = Ret tt (with_p (nz_flags (a st) (p st)) st).
Proof.
  unfold flags_from_a, nz_flags, bind, gets.
  destruct (a st =? 0); cbn [a with_p set_z clr_z bind gets assign_p modify];
    destruct (negb _); reflexivity.
Qed.

(** ** Bits of the updated P register *)

Lemma land_0x80 v : (Z.land v 0x80 =? 0) = negb (Z.testbit v 7).
Proof.
  assert (H : Z.land v 128 = if Z.testbit v 7 then 128 else 0).
  { apply Z.bits_inj'. intros n Hn. rewrite Z.land_spec.
    change 128 with (Z.shiftl 1 7) at 1. rewrite bit_testbit by lia.
    destruct (Z.eqb_spec n 7) as [->|Hne].
    - rewrite andb_true_r. now destruct (Z.testbit v 7).
    - rewrite andb_false_r. destruct (Z.testbit v 7).
      + change 128 with (Z.shiftl 1 7). rewrite bit_testbit by lia.
        symmetry. now apply Z.eqb_neq.
      + now rewrite Z.bits_0. }
  rewrite H. now destruct (Z.testbit v 7).
Qed.

Lemma carry_in_testbit v : carry_in v = Z.b2z (Z.testbit v 0).
Proof.
  unfold carry_in. change (Z.shiftl 1 CF) with (Z.ones 1).
  rewrite Z.land_ones by lia. rewrite Z.bit0_mod.
  change (2 ^ 1) with 2.
  pose proof (Z.mod_pos_bound v 2 ltac:(lia)).
  destruct (Z.eqb_spec (v mod 2) 0) as [->|Hne]; [reflexivity|].
  simpl. lia.
Qed.

(** ** Running one iteration *)

Lemma step_fetch st opcode :
  opcode_at_pc st opcode ->
  step st = (exec opcode ;; trace_regs) (traced_fetch opcode st).
Proof.
  intros H. unfold step, bind at 1 2, gets.
  now rewrite (r8_ret_val _ _ _ H st eq_refl).
Qed.

(** An iteration whose [switch] case returns. *)
Lemma step_ret st opcode st1 :
  opcode_at_pc st opcode ->
  exec opcode (traced_fetch opcode st) = Ret tt st1 ->
  step st = Ret tt (traced_regs st1).
Proof.
  intros Hop Hex. rewrite (step_fetch _ _ Hop). unfold bind. now rewrite Hex.
Qed.

(** An iteration whose [switch] case calls [exit]. *)
Lemma step_exit st opcode code st1 :
  opcode_at_pc st opcode ->
  exec opcode (traced_fetch opcode st) = Exit code st1 ->
  step st = Exit code st1.
Proof.
  intros Hop Hex. rewrite (step_fetch _ _ Hop). unfold bind. now rewrite Hex.
Qed.

Lemma operand8_traced st opcode v :
  operand8 st v -> r8 (pc st + 1) (traced_fetch opcode st) = Ret v (traced_fetch opcode st).
Proof. intros H. now apply (r8_ret_val _ _ _ H). Qed.

Lemma operand16_traced st opcode v :
  operand16 st v -> r16 (pc st + 1) (traced_fetch opcode st) = Ret v (traced_fetch opcode st).
Proof. intros H. now apply (r16_ret_val _ _ _ H). Qed.

Lemma LDA_imm_run st opcode v :
  operand8 st v ->
  LDA_imm (traced_fetch opcode st)
  = Ret tt (with_pc (uint16_t (pc st + 2))
             (with_p (nz_flags v (p st))
               (with_a v (traced_fetch opcode st)))).
Proof.
  intros Hv. unfold LDA_imm, bind at 1 2, gets.
  cbn [pc traced_fetch with_stderr]. rewrite (operand8_traced _ _ _ Hv).
  unfold bind, assign_a, modify. rewrite flags_from_a_run.
  unfold gets, assign_pc, modify. cbn [pc a p with_a with_p traced_fetch with_stderr].
  now rewrite (r8_byte _ _ _ Hv).
Qed.

Lemma ADC_imm_run st opcode v :
  operand8 st v ->
  let acc := uint8_t (a st + v + carry_in (p st)) in
  ADC_imm (traced_fetch opcode st)
  = Ret tt (with_pc (uint16_t (pc st + 2))
             (with_p (nz_flags acc (p st))
               (with_a acc (traced_fetch opcode st)))).
Proof.
  intros Hv acc. unfold ADC_imm, bind at 1 2, gets.
  cbn [pc traced_fetch with_stderr]. rewrite (operand8_traced _ _ _ Hv).
  unfold bind at 1 2. rewrite get_c_run.
  unfold bind, assign_a, modify. rewrite flags_from_a_run.
  reflexivity.
Qed.

Lemma CMP_imm_run st opcode v :
  operand8 st v ->
  CMP_imm (traced_fetch opcode st)
  = Ret tt (with_pc (uint16_t (pc st + 2))
             (with_p (cmp_flags (a st) v (p st)) (traced_fetch opcode st))).
Proof.
  intros Hv. unfold CMP_imm, bind at 1 2, gets.
  cbn [pc traced_fetch with_stderr]. rewrite (operand8_traced _ _ _ Hv).
  unfold cmp_flags, bind at 1, gets. cbn [a traced_fetch with_stderr].
  destruct (a st =? v);
    cbn [bind gets ret modify set_z clr_z set_c assign_p a p with_p
         traced_fetch with_stderr];
    (destruct (a st <? v);
     cbn [bind gets ret modify clr_z clr_c assign_p a p with_p
          traced_fetch with_stderr]);
    (destruct (a st >? v);
     cbn [bind gets ret modify clr_z set_c assign_p assign_pc a p pc with_p
          traced_fetch with_stderr]);
    reflexivity.
Qed.

Lemma BCC_rel_run st opcode v :
  operand8 st v ->
  BCC_rel (traced_fetch opcode st)
  = Ret tt (with_pc (uint16_t (if carry_in (p st) =? 1 then pc st + 2
                               else pc st + 2 + int8_t v))
             (traced_fetch opcode st)).
Proof.
  intros Hv. unfold BCC_rel, bind at 1 2, gets.
  cbn [pc traced_fetch with_stderr]. rewrite (operand8_traced _ _ _ Hv).
  unfold bind at 1. rewrite get_c_run. cbn [p traced_fetch with_stderr].
  destruct (carry_in (p st) =? 1); reflexivity.
Qed.

(** ** Bits of P after the flag-setting instructions *)

Ltac flag_bits i v :=
  unfold CF, ZF, NF;
  repeat first [rewrite setbit_testbit by lia | rewrite clrbit_testbit by lia];
  destruct (Z.ltb_spec i 8), (Z.eqb_spec i 7), (Z.eqb_spec i 1),
    (Z.eqb_spec i 0), (Z.testbit v i);
  try lia; reflexivity.

Lemma nz_flags_testbit acc v i :
  0 <= i ->
  Z.testbit (nz_flags acc v) i
  = (i <? 8) && (if i =? 7 then Z.testbit acc 7
                 else if i =? 1 then acc =? 0
                 else Z.testbit v i).
Proof.
  intros Hi. unfold nz_flags. rewrite land_0x80, negb_involutive.
  destruct (acc =? 0), (Z.testbit acc 7); flag_bits i v.
Qed.

Lemma cmp_flags_testbit acc param8 v i :
  0 <= i ->
  Z.testbit (cmp_flags acc param8 v) i
  = (i <? 8) && (if i =? 1 then acc =? param8
                 else if i =? 0 then param8 <=? acc
                 else Z.testbit v i).
Proof.
  intros Hi. unfold cmp_flags. rewrite Z.gtb_ltb.
  destruct (Z.eqb_spec acc param8), (Z.ltb_spec acc param8),
    (Z.ltb_spec param8 acc), (Z.leb_spec param8 acc); try lia;
    flag_bits i v.
Qed.

(** * The instructions *)

(** C8.  LDA #v (opcode 0xA9) loads [v] into the accumulator, sets Zero
    exactly when [v] is 0, sets Negative exactly when bit 7 of [v] is
    set, and moves the program counter two bytes on (16-bit
    arithmetic). *)
Theorem lda_imm_spec st v :
  opcode_at_pc st 0xA9 -> operand8 st v ->
  exists st',
    step st = Ret tt st' /\
    a st' = v /\
    flag ZF st' = (v =? 0) /\
    flag NF st' = Z.testbit v 7 /\
    pc st' = uint16_t (pc st + 2).
Proof.
  intros Hop Hv. eexists. split.
  - eapply step_ret; [exact Hop|]. change (exec 0xA9) with LDA_imm.
    apply (LDA_imm_run _ 0xA9 _ Hv).
  - unfold flag. cbn [a p pc traced_regs traced_fetch with_stderr with_pc with_p with_a].
    rewrite !nz_flags_testbit by (unfold ZF, NF; lia).
    repeat split; reflexivity.
Qed.

Lemma lda_imm_spec_example :
  exists st',
    step (boot_state [xa9; x80]) = Ret tt st' /\
    a st' = 0x80 /\
    flag ZF st' = (0x80 =? 0) /\
    flag NF st' = Z.testbit 0x80 7 /\
    pc st' = uint16_t (pc (boot_state [xa9; x80]) + 2).
Proof.
  apply (lda_imm_spec (boot_state [xa9; x80]) 0x80); vm_compute; reflexivity.
Defined.

(** C4.  ADC #v (opcode 0x69) leaves (a + v + carry) mod 256 in the
    accumulator, sets Zero and Negative from that result, keeps the Carry
    bit, and moves the program counter two bytes on; the program
    LDA #0xFF; CLC; ADC #0x01 ends with a = 0, Zero set, Negative clear. *)
Theorem adc_imm_spec st v :
  opcode_at_pc st 0x69 -> operand8 st v ->
  exists st',
    step st = Ret tt st' /\
    a st' = (a st + v + Z.b2z (flag CF st)) mod 256 /\
    flag ZF st' = (a st' =? 0) /\
    flag NF st' = Z.testbit (a st') 7 /\
    flag CF st' = flag CF st /\
    pc st' = uint16_t (pc st + 2) /\
    let o := main (inr [xa9; xff; x18; x69; x01]) 3 in
    ret_val o = Some tt /\
    option_map (fun st => (a st, flag ZF st, flag NF st)) (final_state o)
    = Some (0, true, false).
Proof.
  intros Hop Hv. eexists. split.
  - eapply step_ret; [exact Hop|]. change (exec 0x69) with ADC_imm.
    apply (ADC_imm_run _ 0x69 _ Hv).
  - unfold flag. cbn [a p pc traced_regs traced_fetch with_stderr with_pc with_p with_a].
    rewrite !nz_flags_testbit by (unfold CF, ZF, NF; lia).
    rewrite carry_in_testbit.
    do 5 (split; [reflexivity|]). cbv zeta. split; vm_compute; reflexivity.
Qed.

Lemma adc_imm_spec_example :
  let st := boot_state [x69; x01] in
  exists st',
    step st = Ret tt st' /\
    a st' = (a st + 1 + Z.b2z (flag CF st)) mod 256 /\
    flag ZF st' = (a st' =? 0) /\
    flag NF st' = Z.testbit (a st') 7 /\
    flag CF st' = flag CF st /\
    pc st' = uint16_t (pc st + 2) /\
    let o := main (inr [xa9; xff; x18; x69; x01]) 3 in
    ret_val o = Some tt /\
    option_map (fun st => (a st, flag ZF st, flag NF st)) (final_state o)
    = Some (0, true, false).
Proof.
  apply (adc_imm_spec (boot_state [x69; x01]) 1); vm_compute; reflexivity.
Defined.

(** C5.  CMP #v (opcode 0xC9) keeps the accumulator and sets the flags
    by trichotomy: equal gives Zero and Carry set, below gives both
    clear, above gives Zero clear and Carry set; Negative is left as it
    was and the program counter moves two bytes on. *)
Theorem cmp_imm_spec st v :
  opcode_at_pc st 0xC9 -> operand8 st v ->
  exists st',
    step st = Ret tt st' /\
    a st' = a st /\
    (a st = v -> flag ZF st' = true /\ flag CF st' = true) /\
    (a st < v -> flag ZF st' = false /\ flag CF st' = false) /\
    (a st > v -> flag ZF st' = false /\ flag CF st' = true) /\
    flag NF st' = flag NF st /\
    pc st' = uint16_t (pc st + 2).
Proof.
  intros Hop Hv. eexists. split.
  - eapply step_ret; [exact Hop|]. change (exec 0xC9) with CMP_imm.
    apply (CMP_imm_run _ 0xC9 _ Hv).
  - unfold flag. cbn [a p pc traced_regs traced_fetch with_stderr with_pc with_p].
    rewrite !cmp_flags_testbit by (unfold CF, ZF, NF; lia).
    unfold CF, ZF, NF. cbn [Z.eqb Pos.eqb Z.ltb Z.compare Pos.compare Pos.compare_cont andb].
    repeat split; intros; try reflexivity;
      first [apply Z.eqb_eq | apply Z.eqb_neq | apply Z.leb_le | apply Z.leb_gt];
      lia.
Qed.

Lemma cmp_imm_spec_example :
  let st := boot_state [xc9; x5b] in
  exists st',
    step st = Ret tt st' /\
    a st' = a st /\
    (a st = 0x5B -> flag ZF st' = true /\ flag CF st' = true) /\
    (a st < 0x5B -> flag ZF st' = false /\ flag CF st' = false) /\
    (a st > 0x5B -> flag ZF st' = false /\ flag CF st' = true) /\
    flag NF st' = flag NF st /\
    pc st' = uint16_t (pc st + 2).
Proof.
  apply (cmp_imm_spec (boot_state [xc9; x5b]) 0x5B); vm_compute; reflexivity.
Defined.

(** C6.  BCC (opcode 0x90) with operand byte b: with Carry set the new
    program counter is pc + 2, with Carry clear it is
    pc + 2 + signed(b), both as 16-bit values (so exactly that sum
    whenever it is an address), where signed(b) is the two's-complement
    reading of b and lies in -128..127. *)
Theorem bcc_rel_spec st b :
  opcode_at_pc st 0x90 -> operand8 st b ->
  exists st',
    step st = Ret tt st' /\
    (flag CF st = true -> pc st' = uint16_t (pc st + 2)) /\
    (flag CF st = false -> pc st' = uint16_t (pc st + 2 + int8_t b)) /\
    (flag CF st = true -> 0 <= pc st + 2 < 65536 -> pc st' = pc st + 2) /\
    (flag CF st = false -> 0 <= pc st + 2 + int8_t b < 65536 ->
     pc st' = pc st + 2 + int8_t b) /\
    int8_t b = (if b <? 128 then b else b - 256) /\
    -128 <= int8_t b <= 127.
Proof.
  intros Hop Hv. eexists. split.
  - eapply step_ret; [exact Hop|]. change (exec 0x90) with BCC_rel.
    apply (BCC_rel_run _ 0x90 _ Hv).
  - unfold flag. cbn [p pc traced_regs traced_fetch with_stderr with_pc].
    rewrite carry_in_testbit. unfold CF.
    repeat split; try apply int8_t_range.
    + intros H. now rewrite H.
    + intros H. now rewrite H.
    + intros H Hr. rewrite H. now apply uint16_t_small.
    + intros H Hr. rewrite H. now apply uint16_t_small.
    + unfold int8_t. fold (uint8_t b). now rewrite (r8_byte _ _ _ Hv).
Qed.

Lemma bcc_rel_spec_example :
  let st := boot_state [x90; xf7] in
  exists st',
    step st = Ret tt st' /\
    (flag CF st = true -> pc st' = uint16_t (pc st + 2)) /\
    (flag CF st = false -> pc st' = uint16_t (pc st + 2 + int8_t 0xF7)) /\
    (flag CF st = true -> 0 <= pc st + 2 < 65536 -> pc st' = pc st + 2) /\
    (flag CF st = false -> 0 <= pc st + 2 + int8_t 0xF7 < 65536 ->
     pc st' = pc st + 2 + int8_t 0xF7) /\
    int8_t 0xF7 = (if 0xF7 <? 128 then 0xF7 else 0xF7 - 256) /\
    -128 <= int8_t 0xF7 <= 127.
Proof.
  apply (bcc_rel_spec (boot_state [x90; xf7]) 0xF7); vm_compute; reflexivity.
Defined.

(** ** Writing memory *)

Lemma r16_word addr st v : ret_val (r16 addr st) = Some v -> uint16_t v = v.
Proof.
  unfold r16, bind, m_get, ret.
  destruct (0 <=? uint16_t addr); [|discriminate].
  destruct (m st !! Z.to_nat (uint16_t addr)); [|discriminate].
  destruct (0 <=? uint16_t addr + 1); [|discriminate].
  destruct (m st !! Z.to_nat (uint16_t addr + 1)); [|discriminate].
  simpl. intros [= <-]. apply uint16_t_small, uint16_t_range.
Qed.

Lemma char_of_uint8_t c : char_of (uint8_t c) = char_of c.
Proof. unfold char_of. now rewrite uint8_t_idem. Qed.

Lemma mem_ok_lookup st i :
  mem_ok st -> 0 <= i < MEMSIZE -> is_Some (m st !! Z.to_nat i).
Proof. intros [Hlen _] Hi. apply lookup_lt_is_Some. lia. Qed.

Lemma mem_ok_lookup_None st i :
  mem_ok st -> MEMSIZE <= i -> m st !! Z.to_nat i = None.
Proof. intros [Hlen _] Hi. apply lookup_ge_None. lia. Qed.

Lemma forallb_lookup {A} (f : A -> bool) (l : list A) (i : nat) (v : A) :
  forallb f l = true -> l !! i = Some v -> f v = true.
Proof.
  revert i. induction l as [|h l IH]; intros i Hall Hl; [discriminate|].
  apply andb_prop in Hall as [Hh Hall]. destruct i as [|i].
  - now injection Hl as <-.
  - exact (IH i Hall Hl).
Qed.

Lemma mem_ok_byte st i b : mem_ok st -> m st !! i = Some b -> 0 <= b < 256.
Proof.
  intros [_ Hall] Hb. pose proof (forallb_lookup _ _ _ _ Hall Hb) as H.
  unfold is_byte in H. apply andb_prop in H as [H1 H2].
  apply Z.leb_le in H1. apply Z.ltb_lt in H2. lia.
Qed.

Lemma m_set_run st i v :
  mem_ok st -> 0 <= i < MEMSIZE ->
  m_set i v st = Ret tt (with_m (<[Z.to_nat i := uint8_t v]> (m st)) st).
Proof.
  intros Hok Hi. unfold m_set.
  destruct (mem_ok_lookup st i Hok Hi) as [b ->].
  destruct (Z.leb_spec 0 i); [reflexivity|lia].
Qed.

Lemma m_get_run st i :
  mem_ok st -> 0 <= i < MEMSIZE ->
  exists b, m st !! Z.to_nat i = Some b /\ m_get i st = Ret b st.
Proof.
  intros Hok Hi. unfold m_get.
  destruct (mem_ok_lookup st i Hok Hi) as [b Hb]. exists b. rewrite Hb.
  destruct (Z.leb_spec 0 i); [easy|lia].
Qed.

(** The two cases of [w8] on an array of the declared size. *)
Lemma w8_run st addr val :
  mem_ok st ->
  w8 addr val st =
  Ret tt (if uint16_t addr =? 0xc000
          then with_stdout (stdout st ++ String (char_of val) EmptyString) st
          else with_m (<[Z.to_nat (uint16_t addr) := uint8_t val]> (m st)) st).
Proof.
  intros Hok. unfold w8. destruct (uint16_t addr =? 0xc000).
  - unfold putchar, modify. now rewrite char_of_uint8_t.
  - rewrite m_set_run by (auto using uint16_t_range). now rewrite uint8_t_idem.
Qed.

Lemma STA_abs_run st opcode addr :
  mem_ok st -> operand16 st addr ->
  STA_abs (traced_fetch opcode st)
  = Ret tt (with_pc (uint16_t (pc st + 3))
             (if addr =? 0xc000
              then with_stdout (stdout st ++ String (char_of (a st)) EmptyString)
                     (traced_fetch opcode st)
              else with_m (<[Z.to_nat addr := uint8_t (a st)]> (m st))
                     (traced_fetch opcode st))).
Proof.
  intros Hok Hv. unfold STA_abs, bind at 1 2, gets.
  cbn [pc traced_fetch with_stderr]. rewrite (operand16_traced _ _ _ Hv).
  unfold bind at 1 2, gets. rewrite w8_run by exact Hok.
  rewrite (r16_word _ _ _ Hv).
  destruct (addr =? 0xc000); reflexivity.
Qed.

(** The high operand byte of a three-byte instruction is the byte at
    pc + 2 whenever reading the operand stays inside the array. *)
Lemma operand16_little_endian st addr lo hi :
  mem_ok st -> operand16 st addr ->
  operand8 st lo -> ret_val (r8 (pc st + 2) st) = Some hi ->
  addr = lo + 256 * hi.
Proof.
  unfold operand16, operand8. intros Hok. rewrite !r8_unfold.
  unfold r16, bind, m_get, ret.
  pose proof (uint16_t_range (pc st + 1)) as Hr.
  destruct (Z.leb_spec 0 (uint16_t (pc st + 1))); [|lia].
  destruct (m st !! Z.to_nat (uint16_t (pc st + 1))) as [b0|] eqn:E0; [|discriminate].
  destruct (Z.leb_spec 0 (uint16_t (pc st + 1) + 1)); [|lia].
  destruct (m st !! Z.to_nat (uint16_t (pc st + 1) + 1)) as [b1|] eqn:E1; [|discriminate].
  assert (Hlt : uint16_t (pc st + 1) + 1 < MEMSIZE).
  { destruct (Z.lt_ge_cases (uint16_t (pc st + 1) + 1) MEMSIZE) as [|Hge]; [easy|].
    rewrite (mem_ok_lookup_None _ _ Hok Hge) in E1. discriminate. }
  assert (Hpc2 : uint16_t (pc st + 2) = uint16_t (pc st + 1) + 1).
  { unfold uint16_t in *. unfold MEMSIZE in Hlt.
    replace (pc st + 2) with ((pc st + 1) + 1) by lia.
    rewrite <- Zplus_mod_idemp_l. apply Z.mod_small. lia. }
  rewrite Hpc2, E1. cbn [ret_val]. intros [= <-] [= <-] [= <-].
  pose proof (mem_ok_byte _ _ _ Hok E0). pose proof (mem_ok_byte _ _ _ Hok E1).
  rewrite !uint8_t_small, (uint16_t_small b1), Z.shiftl_mul_pow2 by lia.
  change (2 ^ 8) with 256. rewrite uint16_t_small; lia.
Qed.

(** STA in a state where [r16] delivers the operand [addr]: the store
    goes through [w8] at that address, flags and accumulator are kept,
    the program counter moves three bytes on, and for the operand 0xC000
    memory is left as it was while exactly the accumulator's character
    is appended to the program output. *)
Lemma sta_abs_spec st addr :
  mem_ok st -> opcode_at_pc st 0x8D -> operand16 st addr ->
  exists st' st_w,
    step st = Ret tt st' /\
    w8 addr (a st) st = Ret tt st_w /\
    m st' = m st_w /\ stdout st' = stdout st_w /\
    p st' = p st /\ a st' = a st /\
    pc st' = uint16_t (pc st + 3) /\
    (forall lo hi,
        operand8 st lo -> ret_val (r8 (pc st + 2) st) = Some hi ->
        addr = lo + 256 * hi) /\
    (addr = 0xC000 ->
       m st' = m st /\
       stdout st' = (stdout st ++ String (char_of (a st)) EmptyString)%string) /\
    (addr <> 0xC000 ->
       m st' = <[Z.to_nat addr := uint8_t (a st)]> (m st) /\
       stdout st' = stdout st).
Proof.
  intros Hok Hop Hv. eexists. eexists. split; [|split].
  - eapply step_ret; [exact Hop|]. change (exec 0x8D) with STA_abs.
    apply (STA_abs_run _ 0x8D _ Hok Hv).
  - rewrite w8_run by exact Hok. rewrite (r16_word _ _ _ Hv). reflexivity.
  - destruct (Z.eqb_spec addr 0xc000) as [->|Hne];
      cbn [a p pc m stdout traced_regs traced_fetch with_stderr with_pc
           with_stdout with_m];
      repeat split; try reflexivity; try (intros; congruence);
      intros lo hi Hlo Hhi;
      apply (operand16_little_endian st _ lo hi Hok Hv Hlo Hhi).
Qed.

Lemma sta_abs_spec_example :
  let st := run_state alphabet 2 in
  exists st' st_w,
    step st = Ret tt st' /\
    w8 0xC000 (a st) st = Ret tt st_w /\
    m st' = m st_w /\ stdout st' = stdout st_w /\
    p st' = p st /\ a st' = a st /\
    pc st' = uint16_t (pc st + 3) /\
    (forall lo hi,
        operand8 st lo -> ret_val (r8 (pc st + 2) st) = Some hi ->
        0xC000 = lo + 256 * hi) /\
    (0xC000 = 0xC000 ->
       m st' = m st /\
       stdout st' = (stdout st ++ String (char_of (a st)) EmptyString)%string) /\
    (0xC000 <> 0xC000 ->
       m st' = <[Z.to_nat 0xC000 := uint8_t (a st)]> (m st) /\
       stdout st' = stdout st).
Proof.
  apply (sta_abs_spec (run_state alphabet 2) 0xC000);
    [split | | ]; vm_compute; reflexivity.
Defined.

(** ** The array keeps its size and element type *)

Lemma bytes_Forall (l : list Z) :
  forallb is_byte l = true <-> Forall (fun b => 0 <= b < 256) l.
Proof.
  induction l as [|h l IH]; simpl.
  - split; [constructor|reflexivity].
  - rewrite andb_true_iff, IH, Forall_cons. unfold is_byte.
    rewrite andb_true_iff, Z.leb_le, Z.ltb_lt. reflexivity.
Qed.

Lemma mem_ok_insert st i v :
  mem_ok st -> mem_ok (with_m (<[i := uint8_t v]> (m st)) st).
Proof.
  intros [Hlen Hall]. split; cbn [m with_m].
  - now rewrite length_insert.
  - apply bytes_Forall, Forall_insert; [now apply bytes_Forall|].
    apply uint8_t_range.
Qed.

Lemma load_length image : Z.of_nat (length (load image)) = MEMSIZE.
Proof.
  unfold load. rewrite length_app, length_fmap, length_take, length_replicate.
  unfold MEMSIZE. lia.
Qed.

Lemma load_bytes image : forallb is_byte (load image) = true.
Proof.
  apply bytes_Forall. unfold load. apply Forall_app. split.
  - apply Forall_fmap, Forall_forall. intros b _. simpl.
    pose proof (Byte.to_N_bounded b). lia.
  - apply Forall_replicate. lia.
Qed.

Lemma w16_run st addr val :
  mem_ok st -> uint16_t addr + 1 < MEMSIZE ->
  w16 addr val st
  = Ret tt (with_m (<[Z.to_nat (uint16_t addr + 1) := uint8_t (Z.shiftr (uint16_t val) 8)]>
                      (<[Z.to_nat (uint16_t addr) := uint8_t (Z.land (uint16_t val) 0xFF)]>
                         (m st))) st).
Proof.
  intros Hok Hlt. pose proof (uint16_t_range addr).
  unfold w16, bind. rewrite m_set_run by (unfold MEMSIZE in *; auto with zarith).
  rewrite m_set_run; [reflexivity| |lia]. now apply mem_ok_insert.
Qed.

(** ** Start-up always enters the loop at address 0 *)

(** The reset vector written by [w16] is read back by [r16]. *)
Lemma reset_run st :
  mem_ok st ->
  exists st',
    reset st = Ret tt st' /\
    pc st' = 0 /\ a st' = 0 /\ x st' = 0 /\ y st' = 0 /\ s st' = 0 /\ p st' = 0 /\
    stdout st' = stdout st /\ mem_ok st'.
Proof.
  intros Hok. unfold reset, bind. rewrite w16_run by (exact Hok || reflexivity).
  assert (Hv : uint16_t 0xFFFC = 0xFFFC) by reflexivity.
  rewrite !Hv.
  destruct Hok as [Hlen Hall]. unfold MEMSIZE in Hlen.
  set (l := <[_ := _]> (<[_ := _]> (m st))).
  assert (Hl : Z.of_nat (length l) = MEMSIZE)
    by (unfold l; now rewrite !length_insert).
  assert (Hb : forallb is_byte l = true).
  { apply bytes_Forall. unfold l.
    repeat apply Forall_insert; try apply uint8_t_range. now apply bytes_Forall. }
  assert (Hlo : l !! Z.to_nat 0xFFFC = Some 0).
  { unfold l. rewrite list_lookup_insert_ne by lia.
    apply list_lookup_insert_eq. lia. }
  assert (Hhi : l !! Z.to_nat (0xFFFC + 1) = Some 0).
  { unfold l. apply list_lookup_insert_eq. rewrite length_insert. lia. }
  assert (Hr : r16 0xFFFC (with_m l st) = Ret 0 (with_m l st)).
  { unfold r16, bind, m_get, ret. cbn [m with_m]. rewrite !Hv.
    destruct (Z.leb_spec 0 0xFFFC); [|lia].
    destruct (Z.leb_spec 0 (0xFFFC + 1)); [|lia].
    rewrite Hlo. cbn [m with_m]. rewrite Hhi. reflexivity. }
  rewrite Hr. eexists. split; [reflexivity|].
  unfold mem_ok.
  cbn [assign_p modify pc a x y s p m stdout
       with_pc with_a with_x with_y with_s with_p with_m].
  do 7 (split; [reflexivity|]). split; assumption.
Qed.

Lemma mem_ok_load image st : mem_ok (with_m (load image) st).
Proof.
  split; cbn [m with_m]; [apply load_length|apply load_bytes].
Qed.

Lemma boot_from st0 image :
  exists st,
    boot image st0 = Ret tt st /\
    pc st = 0 /\ a st = 0 /\ x st = 0 /\ y st = 0 /\ s st = 0 /\ p st = 0 /\
    stdout st = stdout st0 /\ mem_ok st.
Proof. exact (reset_run _ (mem_ok_load image st0)). Qed.

Lemma boot_ok image :
  exists st,
    boot image initial = Ret tt st /\
    pc st = 0 /\ a st = 0 /\ x st = 0 /\ y st = 0 /\ s st = 0 /\ p st = 0 /\
    stdout st = EmptyString /\ mem_ok st.
Proof. exact (boot_from initial image). Qed.

Lemma boot_run image :
  boot image initial = Ret tt (boot_state image) /\
  pc (boot_state image) = 0 /\ a (boot_state image) = 0 /\
  x (boot_state image) = 0 /\ y (boot_state image) = 0 /\
  s (boot_state image) = 0 /\ p (boot_state image) = 0 /\
  stdout (boot_state image) = EmptyString /\
  mem_ok (boot_state image).
Proof.
  unfold boot_state. destruct (boot_ok image) as (st & -> & H). now split.
Qed.

Lemma main_loop image n : main (inr image) n = loop n (boot_state image).
Proof.
  unfold main, bind. now rewrite (proj1 (boot_run image)).
Qed.

(** ** The loop once [exit] has been called *)

Lemma loop_add n k st :
  loop (n + k) st = (loop n ;; loop k) st.
Proof.
  revert st. induction n as [|n IH]; intros st; [reflexivity|].
  cbn [loop Nat.add]. unfold bind in *. destruct (step st); auto.
Qed.

Lemma loop_exit_stable n k st :
  exit_code (loop n st) <> None -> loop (n + k) st = loop n st.
Proof.
  intros H. rewrite loop_add. unfold bind.
  destruct (loop n st); simpl in H; congruence.
Qed.

(** ** The hexadecimal conversions of [printf] *)

Lemma to_hex_uint_nonnil n : N.to_hex_uint n <> Hexadecimal.Nil.
Proof. destruct n; [discriminate|apply Unsigned.to_uint_nonnil]. Qed.

Lemma uint_of_zeros k text :
  NilEmpty.uint_of_string (zeros k ++ text)
  = option_map (Nat.iter k Hexadecimal.D0) (NilEmpty.uint_of_string text).
Proof.
  induction k as [|k IH]; cbn [zeros String.append NilEmpty.uint_of_string Nat.iter nat_rect].
  - now destruct (NilEmpty.uint_of_string text).
  - rewrite IH. now destruct (NilEmpty.uint_of_string text).
Qed.

Lemma of_hex_uint_zeros k d :
  N.of_hex_uint (Nat.iter k Hexadecimal.D0 d) = N.of_hex_uint d.
Proof. induction k as [|k IH]; [reflexivity|exact IH]. Qed.

(** What [%x] prints reads back as the value printed, whatever the
    width. *)
Lemma fmt_x_reads_back width v :
  0 <= v -> hex_value (fmt_x width v) = Some v.
Proof.
  intros Hv. unfold hex_value, fmt_x. cbv zeta.
  set (d := N.to_hex_uint (Z.to_N v)).
  set (k := (width - _)%nat).
  assert (Hd : NilEmpty.uint_of_string (NilZero.string_of_uint d) = Some d).
  { pose proof (to_hex_uint_nonnil (Z.to_N v)) as Hnil. fold d in Hnil.
    destruct d; try contradiction; apply NilEmpty.usu. }
  assert (Hne : (zeros k ++ NilZero.string_of_uint d)%string <> EmptyString).
  { destruct k; cbn [zeros String.append]; [|discriminate].
    clear Hd. now destruct d. }
  unfold NilZero.uint_of_string.
  destruct (zeros k ++ NilZero.string_of_uint d)%string eqn:E; [contradiction|].
  rewrite <- E, uint_of_zeros, Hd. cbn [option_map].
  rewrite of_hex_uint_zeros. unfold d.
  rewrite HexadecimalN.Unsigned.of_to. f_equal. lia.
Qed.

(** ** Opcodes without a case *)

Lemma exec_default opcode :
  ~ In opcode supported -> exec opcode = unknown_opcode opcode.
Proof.
  intros H. unfold exec.
  repeat match goal with
         | |- (if ?v =? ?c then _ else _) = _ =>
             destruct (Z.eqb_spec v c) as [->|_];
             [exfalso; apply H; simpl; tauto|]
         end.
  reflexivity.
Qed.

(** C9.  An opcode byte outside the supported set makes the iteration
    print the opcode and the address it was fetched from (as hexadecimal
    digits that read back as these values) on the program output and
    leave with exit code 1, registers and memory as they were; the image
    that consists of the byte 0xFF stops with exit code 1 after printing
    opcode ff and address 0000. *)
Theorem unknown_opcode_spec st opcode :
  opcode_at_pc st opcode -> ~ In opcode supported ->
  exists st',
    step st = Exit 1 st' /\
    stdout st' = (stdout st ++ "Unknown opcode " ++ fmt_x 2 opcode
                  ++ " at address " ++ fmt_x 4 (pc st) ++ newline)%string /\
    hex_value (fmt_x 2 opcode) = Some opcode /\
    (0 <= pc st -> hex_value (fmt_x 4 (pc st)) = Some (pc st)) /\
    pc st' = pc st /\ a st' = a st /\ x st' = x st /\ y st' = y st /\
    s st' = s st /\ p st' = p st /\ m st' = m st /\
    forall n,
      let o := main (inr [xff]) (S n) in
      exit_code o = Some 1 /\
      option_map stdout (final_state o)
      = Some ("Unknown opcode ff at address 0000" ++ newline)%string.
Proof.
  intros Hop Hno. eexists. split.
  - eapply step_exit; [exact Hop|]. rewrite (exec_default _ Hno). reflexivity.
  - cbn [pc a x y s p m stdout traced_fetch with_stderr with_stdout].
    split; [reflexivity|]. split.
    { apply fmt_x_reads_back. rewrite <- (r8_byte _ _ _ Hop).
      apply uint8_t_range. }
    split; [apply fmt_x_reads_back|].
    do 7 (split; [reflexivity|]). intros n. cbv zeta.
    rewrite main_loop, (loop_exit_stable 1 n) by (vm_compute; congruence).
    split; vm_compute; reflexivity.
Qed.

Lemma unknown_opcode_spec_example :
  let st := boot_state [xff] in
  exists st',
    step st = Exit 1 st' /\
    stdout st' = (stdout st ++ "Unknown opcode " ++ fmt_x 2 0xFF
                  ++ " at address " ++ fmt_x 4 (pc st) ++ newline)%string /\
    hex_value (fmt_x 2 0xFF) = Some 0xFF /\
    (0 <= pc st -> hex_value (fmt_x 4 (pc st)) = Some (pc st)) /\
    pc st' = pc st /\ a st' = a st /\ x st' = x st /\ y st' = y st /\
    s st' = s st /\ p st' = p st /\ m st' = m st /\
    forall n,
      let o := main (inr [xff]) (S n) in
      exit_code o = Some 1 /\
      option_map stdout (final_state o)
      = Some ("Unknown opcode ff at address 0000" ++ newline)%string.
Proof.
  apply (unknown_opcode_spec (boot_state [xff]) 0xFF);
    [vm_compute; reflexivity | simpl; lia].
Defined.

(** * The tutorial program *)

(** C1.  On the image of CLC; LDA #0x41; loop: STA 0xC000; ADC #0x01;
    CMP #0x5B; BCC loop; BRK the emulator is still running after 106
    iterations, and from the 107th on it has left through BRK (at
    address 12) with exit code 0, having written exactly the letters A
    to Z to the program output. *)
Theorem alphabet_run k :
  let o := main (inr alphabet) (107 + k) in
  exit_code o = Some 0 /\
  option_map stdout (final_state o) = Some "ABCDEFGHIJKLMNOPQRSTUVWXYZ"%string /\
  option_map pc (final_state o) = Some 12 /\
  ret_val (r8 12 (boot_state alphabet)) = Some 0x00 /\
  pc (boot_state alphabet) = 0 /\
  take 13 (m (boot_state alphabet))
  = [0x18; 0xA9; 0x41; 0x8D; 0x00; 0xC0; 0x69; 0x01; 0xC9; 0x5B; 0x90; 0xF7; 0x00] /\
  forallb (Z.eqb 0) (drop 13 (m (boot_state alphabet))) = true /\
  ret_val (main (inr alphabet) 106) = Some tt /\
  option_map stdout (final_state (main (inr alphabet) 106))
  = Some "ABCDEFGHIJKLMNOPQRSTUVWXYZ"%string.
Proof.
  cbv zeta. rewrite main_loop, (loop_exit_stable 107 k) by (vm_compute; congruence).
  repeat apply conj; vm_compute; reflexivity.
Qed.

(** * What an iteration leaves alone *)

Create HintDb frame.

(** Every relation that is a preorder and holds across the elementary
    updates made by the switch cases holds across a whole iteration. *)
Section Frame.
Variable R : state -> state -> Prop.
Hypothesis R_refl : forall st, R st st.
Hypothesis R_trans : forall st1 st2 st3, R st1 st2 -> R st2 st3 -> R st1 st3.
Hypothesis R_pc : forall v st, R st (with_pc v st).
Hypothesis R_a : forall v st, R st (with_a v st).
Hypothesis R_stdout : forall v st, R st (with_stdout v st).
Hypothesis R_stderr : forall v st, R st (with_stderr v st).
Hypothesis R_setbit :
  forall k st, k = CF \/ k = ZF \/ k = NF -> R st (with_p (setbit k (p st)) st).
Hypothesis R_clrbit :
  forall k st, k = CF \/ k = ZF \/ k = NF -> R st (with_p (clrbit k (p st)) st).
Hypothesis R_m_set :
  forall i v st, R st (with_m (<[i := uint8_t v]> (m st)) st).

Lemma preserves_ret {A} (v : A) : preserves R (ret v).
Proof. intros st. apply R_refl. Qed.

Lemma preserves_gets {A} (f : state -> A) : preserves R (gets f).
Proof. intros st. apply R_refl. Qed.

Lemma preserves_exit code : preserves R (exit code).
Proof. intros st. apply R_refl. Qed.

Lemma preserves_bind {A B} (c : M A) (k : A -> M B) :
  preserves R c -> (forall v, preserves R (k v)) -> preserves R (bind c k).
Proof.
  intros Hc Hk st. unfold bind. specialize (Hc st).
  destruct (c st) as [v st1|code st1|]; [|assumption|exact I].
  specialize (Hk v st1). destruct (k v st1); eauto.
Qed.

Lemma preserves_if {A} (b : bool) (c1 c2 : M A) :
  preserves R c1 -> preserves R c2 -> preserves R (if b then c1 else c2).
Proof. now destruct b. Qed.

Lemma preserves_m_get i : preserves R (m_get i).
Proof.
  intros st. unfold m_get.
  destruct (0 <=? i); [|exact I].
  destruct (m st !! Z.to_nat i); [apply R_refl|exact I].
Qed.

Lemma preserves_m_set i v : preserves R (m_set i v).
Proof.
  intros st. unfold m_set.
  destruct (0 <=? i); [|exact I].
  destruct (m st !! Z.to_nat i); [apply R_m_set|exact I].
Qed.

Lemma preserves_assign_pc v : preserves R (assign_pc v).
Proof. intros st. apply R_pc. Qed.

Lemma preserves_assign_a v : preserves R (assign_a v).
Proof. intros st. apply R_a. Qed.

Lemma preserves_putchar c : preserves R (putchar c).
Proof. intros st. apply R_stdout. Qed.

Lemma preserves_printf text : preserves R (printf text).
Proof. intros st. apply R_stdout. Qed.

Lemma preserves_fprintf_stderr text : preserves R (fprintf_stderr text).
Proof. intros st. apply R_stderr. Qed.

Lemma preserves_set_z : preserves R set_z.
Proof. intros st. rewrite set_z_run. apply R_setbit. tauto. Qed.

Lemma preserves_clr_z : preserves R clr_z.
Proof. intros st. rewrite clr_z_run. apply R_clrbit. tauto. Qed.

Lemma preserves_set_n : preserves R set_n.
Proof. intros st. rewrite set_n_run. apply R_setbit. tauto. Qed.

Lemma preserves_clr_n : preserves R clr_n.
Proof. intros st. rewrite clr_n_run. apply R_clrbit. tauto. Qed.

Lemma preserves_set_c : preserves R set_c.
Proof. intros st. rewrite set_c_run. apply R_setbit. tauto. Qed.

Lemma preserves_clr_c : preserves R clr_c.
Proof. intros st. rewrite clr_c_run. apply R_clrbit. tauto. Qed.

Lemma preserves_get_c : preserves R get_c.
Proof. intros st. rewrite get_c_run. apply R_refl. Qed.

#[local] Hint Resolve preserves_ret preserves_gets preserves_exit
  preserves_bind preserves_if preserves_m_get preserves_m_set
  preserves_assign_pc preserves_assign_a preserves_putchar preserves_printf
  preserves_fprintf_stderr preserves_set_z preserves_clr_z preserves_set_n
  preserves_clr_n preserves_set_c preserves_clr_c preserves_get_c : frame.

Lemma preserves_r8 addr : preserves R (r8 addr).
Proof. unfold r8. auto with frame. Qed.

Lemma preserves_r16 addr : preserves R (r16 addr).
Proof. unfold r16. auto 6 with frame. Qed.

Lemma preserves_w8 addr val : preserves R (w8 addr val).
Proof. unfold w8. auto with frame. Qed.

#[local] Hint Resolve preserves_r8 preserves_r16 preserves_w8 : frame.

Lemma preserves_exec opcode : preserves R (exec opcode).
Proof.
  unfold exec, BRK, NOP, CLC, LDA_imm, STA_abs, ADC_imm, CMP_imm, BCC_rel,
    unknown_opcode, flags_from_a.
  repeat apply preserves_if; auto 20 with frame.
Qed.

Lemma preserves_step : preserves R step.
Proof.
  unfold step, trace_fetch, trace_regs.
  pose proof preserves_exec. auto 10 with frame.
Qed.

Lemma preserves_loop n : preserves R (loop n).
Proof.
  induction n as [|n IH]; cbn [loop].
  - apply preserves_ret.
  - apply preserves_bind; [apply preserves_step|auto].
Qed.
End Frame.

(** ** Flag bits that no instruction computes *)

Lemma same_idbxv_refl st : same_idbxv st st.
Proof. now intros i Hi. Qed.

Lemma same_idbxv_trans st1 st2 st3 :
  same_idbxv st1 st2 -> same_idbxv st2 st3 -> same_idbxv st1 st3.
Proof. intros H12 H23 i Hi. now rewrite H23, H12. Qed.

Lemma same_idbxv_p st st' : p st' = p st -> same_idbxv st st'.
Proof. intros H i Hi. now rewrite H. Qed.

Lemma same_idbxv_setbit k st :
  k = CF \/ k = ZF \/ k = NF -> same_idbxv st (with_p (setbit k (p st)) st).
Proof.
  intros Hk i Hi. cbn [p with_p]. unfold CF, ZF, NF in Hk.
  rewrite setbit_testbit by lia.
  destruct (Z.ltb_spec i 8), (Z.eqb_spec i k), (Z.testbit (p st) i);
    try lia; reflexivity.
Qed.

Lemma same_idbxv_clrbit k st :
  k = CF \/ k = ZF \/ k = NF -> same_idbxv st (with_p (clrbit k (p st)) st).
Proof.
  intros Hk i Hi. cbn [p with_p]. unfold CF, ZF, NF in Hk.
  rewrite clrbit_testbit by lia.
  destruct (Z.ltb_spec i 8), (Z.eqb_spec i k), (Z.testbit (p st) i);
    try lia; reflexivity.
Qed.

Lemma step_idbxv : preserves same_idbxv step.
Proof.
  apply preserves_step;
    first [ exact same_idbxv_refl | exact same_idbxv_trans
          | exact same_idbxv_setbit | exact same_idbxv_clrbit
          | intros; now apply same_idbxv_p ].
Qed.

(** ** The array stays well formed *)

Lemma keeps_mem_ok_m st st' : m st' = m st -> keeps_mem_ok st st'.
Proof. unfold keeps_mem_ok, mem_ok. now intros ->. Qed.

Ltac keeps_mem_ok_cases :=
  first [ intros; now apply keeps_mem_ok_m
        | intros i v st; exact (mem_ok_insert st i v)
        | unfold keeps_mem_ok; now auto ].

Lemma step_mem_ok : preserves keeps_mem_ok step.
Proof. apply preserves_step; keeps_mem_ok_cases. Qed.

Lemma loop_mem_ok n : preserves keeps_mem_ok (loop n).
Proof. apply preserves_loop; keeps_mem_ok_cases. Qed.

(** ** States the emulator passes through *)

Lemma reachable_preserved (R : state -> state -> Prop) st0 st :
  (forall st1, R st1 st1) ->
  (forall st1 st2 st3, R st1 st2 -> R st2 st3 -> R st1 st3) ->
  preserves R step -> reachable st0 st -> R st0 st.
Proof.
  intros Hrefl Htrans Hstep.
  induction 1 as [|st st' _ IH Hrun|st code st' _ IH Hrun].
  - apply Hrefl.
  - apply (Htrans _ _ _ IH). specialize (Hstep st). now rewrite Hrun in Hstep.
  - apply (Htrans _ _ _ IH). specialize (Hstep st). now rewrite Hrun in Hstep.
Qed.

Lemma reachable_mem_ok st0 st : mem_ok st0 -> reachable st0 st -> mem_ok st.
Proof.
  intros Hok Hreach. revert Hok.
  apply (reachable_preserved keeps_mem_ok st0 st); try assumption.
  - now intros st1.
  - unfold keeps_mem_ok. auto.
  - apply step_mem_ok.
Qed.

Lemma reachable_idbxv st0 st : reachable st0 st -> same_idbxv st0 st.
Proof.
  apply reachable_preserved.
  - apply same_idbxv_refl.
  - apply same_idbxv_trans.
  - apply step_idbxv.
Qed.

Lemma loop_reachable n st0 st1 st :
  reachable st0 st1 -> final_state (loop n st1) = Some st -> reachable st0 st.
Proof.
  revert st1. induction n as [|n IH]; intros st1 Hreach; cbn [loop].
  - unfold ret. cbn [final_state]. now intros [= <-].
  - unfold bind. destruct (step st1) as [[] st2|code st2|] eqn:Hstep.
    + apply IH. now apply (reach_next _ st1).
    + cbn [final_state]. intros [= <-]. now apply (reach_exit _ st1 code).
    + discriminate.
Qed.

Lemma reachable_run_state image n :
  ret_val (main (inr image) n) = Some tt ->
  reachable (boot_state image) (run_state image n).
Proof.
  unfold run_state. rewrite main_loop. intros H.
  apply (loop_reachable n _ (boot_state image)); [constructor|].
  now destruct (loop n (boot_state image)).
Qed.

(** C10.  From a state whose flags register is 0, every state the
    emulator passes through has the bits InterruptDisable(2), Decimal(3),
    Break(4), Unused(5) and Overflow(6) clear; so has every state
    reached by [main] on any image; and no iteration changes any of
    these bits whatever the flags were. *)
Theorem idbxv_flags_stay_clear st0 st i :
  p st0 = 0 -> reachable st0 st -> 2 <= i <= 6 ->
  Z.testbit (p st) i = false /\
  (forall image n st',
      final_state (main (inr image) n) = Some st' ->
      Z.testbit (p st') i = false) /\
  (forall st1 st2,
      final_state (step st1) = Some st2 ->
      Z.testbit (p st2) i = Z.testbit (p st1) i).
Proof.
  intros Hp Hreach Hi. split; [|split].
  - rewrite (reachable_idbxv _ _ Hreach i Hi), Hp. apply Z.bits_0.
  - intros image n st' Hfin. rewrite main_loop in Hfin.
    pose proof (loop_reachable n _ _ _ (reach_start _) Hfin) as Hr.
    rewrite (reachable_idbxv _ _ Hr i Hi).
    destruct (boot_run image) as (_ & _ & _ & _ & _ & _ & -> & _).
    apply Z.bits_0.
  - intros st1 st2 Hfin. pose proof (step_idbxv st1) as H.
    destruct (step st1); cbn [final_state] in Hfin; try discriminate;
      injection Hfin as <-; now apply H.
Qed.

Lemma idbxv_flags_stay_clear_example :
  Z.testbit (p (run_state alphabet 5)) 6 = false /\
  (forall image n st',
      final_state (main (inr image) n) = Some st' ->
      Z.testbit (p st') 6 = false) /\
  (forall st1 st2,
      final_state (step st1) = Some st2 ->
      Z.testbit (p st2) 6 = Z.testbit (p st1) 6).
Proof.
  apply (idbxv_flags_stay_clear (boot_state alphabet) (run_state alphabet 5) 6).
  - vm_compute. reflexivity.
  - apply reachable_run_state. vm_compute. reflexivity.
  - lia.
Defined.

(** * Sixteen-bit accesses *)

(** Every address can be read by [r8]. *)
Lemma r8_run st addr :
  mem_ok st ->
  exists b, r8 addr st = Ret b st /\ m st !! Z.to_nat (uint16_t addr) = Some b.
Proof.
  intros Hok. rewrite r8_unfold.
  destruct (mem_ok_lookup st (uint16_t addr) Hok (uint16_t_range addr)) as [b Hb].
  exists b. rewrite Hb, (uint8_t_small b) by apply (mem_ok_byte _ _ _ Hok Hb).
  now split.
Qed.

(** Below the last address [r16] is the little-endian combination of the
    two bytes that [r8] reads. *)
Lemma r16_little_endian st addr :
  mem_ok st -> uint16_t addr <> 0xFFFF ->
  exists lo hi,
    r8 addr st = Ret lo st /\ r8 (addr + 1) st = Ret hi st /\
    r16 addr st = Ret (lo + 256 * hi) st.
Proof.
  intros Hok Hne. pose proof (uint16_t_range addr) as Hr.
  assert (Hnext : uint16_t (addr + 1) = uint16_t addr + 1).
  { unfold uint16_t in *. rewrite <- Zplus_mod_idemp_l. apply Z.mod_small. lia. }
  destruct (r8_run st addr Hok) as (lo & Hlo & Elo).
  destruct (r8_run st (addr + 1) Hok) as (hi & Hhi & Ehi).
  exists lo, hi. split; [assumption|]. split; [assumption|].
  rewrite Hnext in Ehi.
  pose proof (mem_ok_byte _ _ _ Hok Elo). pose proof (mem_ok_byte _ _ _ Hok Ehi).
  unfold r16, bind, m_get, ret.
  destruct (Z.leb_spec 0 (uint16_t addr)); [|lia]. rewrite Elo.
  destruct (Z.leb_spec 0 (uint16_t addr + 1)); [|lia]. rewrite Ehi.
  rewrite (uint16_t_small hi), Z.shiftl_mul_pow2 by lia.
  change (2 ^ 8) with 256. rewrite uint16_t_small by lia.
  f_equal. lia.
Qed.

(** C2.  At address 0xFFFF [r16] indexes the array at 65536, outside its
    bounds, although [r8] reads both 0xFFFF and (0xFFFF + 1) mod 65536;
    at every other address it returns r8(addr) + 256 * r8(addr + 1). *)
Theorem r16_top_of_memory st :
  mem_ok st ->
  r16 0xFFFF st = OutOfBounds /\
  (exists lo hi, r8 0xFFFF st = Ret lo st /\ r8 (0xFFFF + 1) st = Ret hi st /\
                 m st !! 0%nat = Some hi) /\
  (forall addr, uint16_t addr <> 0xFFFF ->
     exists lo hi,
       r8 addr st = Ret lo st /\ r8 (addr + 1) st = Ret hi st /\
       r16 addr st = Ret (lo + 256 * hi) st).
Proof.
  intros Hok. split; [|split].
  - unfold r16, bind, m_get, ret. change (uint16_t 0xFFFF) with 0xFFFF.
    destruct (mem_ok_lookup st 0xFFFF Hok ltac:(unfold MEMSIZE; lia)) as [b Hb].
    destruct (Z.leb_spec 0 0xFFFF); [|lia]. rewrite Hb.
    destruct (Z.leb_spec 0 (0xFFFF + 1)); [|lia].
    rewrite (mem_ok_lookup_None st (0xFFFF + 1) Hok) by (unfold MEMSIZE; lia).
    reflexivity.
  - destruct (r8_run st 0xFFFF Hok) as (lo & Hlo & _).
    destruct (r8_run st (0xFFFF + 1) Hok) as (hi & Hhi & Ehi).
    exists lo, hi. auto.
  - intros addr Hne. now apply r16_little_endian.
Qed.

Lemma r16_top_of_memory_example :
  let st := boot_state alphabet in
  r16 0xFFFF st = OutOfBounds /\
  (exists lo hi, r8 0xFFFF st = Ret lo st /\ r8 (0xFFFF + 1) st = Ret hi st /\
                 m st !! 0%nat = Some hi) /\
  (forall addr, uint16_t addr <> 0xFFFF ->
     exists lo hi,
       r8 addr st = Ret lo st /\ r8 (addr + 1) st = Ret hi st /\
       r16 addr st = Ret (lo + 256 * hi) st).
Proof.
  apply (r16_top_of_memory (boot_state alphabet)). split; vm_compute; reflexivity.
Defined.

Lemma low_byte word : uint8_t (Z.land (uint16_t word) 0xFF) = uint8_t word.
Proof.
  unfold uint8_t, uint16_t. change 255 with (Z.ones 8).
  rewrite Z.land_ones by lia. change (2 ^ 8) with 256.
  rewrite Z.mod_mod by lia. apply Z.mod_mod_divide. now exists 256.
Qed.



(** Away from the output device and from the last address, [w16] and
    the byte-wise contract do the same. *)
Lemma w16_bytewise_elsewhere st addr word :
  mem_ok st ->
  uint16_t addr <> 0xBFFF -> uint16_t addr <> 0xC000 -> uint16_t addr <> 0xFFFF ->
  w16 addr word st = write16_spec addr word st.
Proof.
  intros Hok H1 H2 H3. pose proof (uint16_t_range addr) as Hr.
  assert (Hnext : uint16_t (addr + 1) = uint16_t addr + 1).
  { unfold uint16_t in *. rewrite <- Zplus_mod_idemp_l. apply Z.mod_small. lia. }
  rewrite w16_run by (exact Hok || (unfold MEMSIZE; lia)).
  unfold write16_spec, bind. rewrite w8_run by exact Hok.
  destruct (Z.eqb_spec (uint16_t addr) 0xc000) as [|_]; [contradiction|].
  rewrite w8_run by (now apply mem_ok_insert). rewrite Hnext.
  destruct (Z.eqb_spec (uint16_t addr + 1) 0xc000) as [|_]; [lia|].
  reflexivity.
Qed.

(** * Where an iteration can leave the array *)

(** On a well-formed array the only access outside [m] is the operand
    read of STA when the operand starts at the last address. *)
Lemma step_defined st :
  mem_ok st ->
  (opcode_at_pc st 0x8D -> uint16_t (pc st + 1) <> 0xFFFF) ->
  step st <> OutOfBounds.
Proof.
  intros Hok Hsta.
  destruct (r8_run st (pc st) Hok) as (opcode & Hop & _).
  assert (Hopc : opcode_at_pc st opcode) by (unfold opcode_at_pc; now rewrite Hop).
  destruct (r8_run st (pc st + 1) Hok) as (v & Hv8 & _).
  assert (Hv : operand8 st v) by (unfold operand8; now rewrite Hv8).
  rewrite (step_fetch _ _ Hopc). unfold bind, exec.
  destruct (Z.eqb_spec opcode 0x00); [discriminate|].
  destruct (Z.eqb_spec opcode 0xea); [discriminate|].
  destruct (Z.eqb_spec opcode 0x18); [discriminate|].
  destruct (Z.eqb_spec opcode 0xA9).
  { now rewrite (LDA_imm_run _ opcode _ Hv). }
  destruct (Z.eqb_spec opcode 0x8D) as [->|].
  { destruct (r16_little_endian st (pc st + 1) Hok (Hsta Hopc))
      as (lo & hi & _ & _ & H16).
    assert (Hv16 : operand16 st (lo + 256 * hi))
      by (unfold operand16; now rewrite H16).
    now rewrite (STA_abs_run _ 0x8D _ Hok Hv16). }
  destruct (Z.eqb_spec opcode 0x69).
  { now rewrite (ADC_imm_run _ opcode _ Hv). }
  destruct (Z.eqb_spec opcode 0xC9).
  { now rewrite (CMP_imm_run _ opcode _ Hv). }
  destruct (Z.eqb_spec opcode 0x90).
  { now rewrite (BCC_rel_run _ opcode _ Hv). }
  discriminate.
Qed.

(** STA whose operand starts at 0xFFFF reads outside the array. *)
Lemma step_sta_at_top st :
  mem_ok st -> opcode_at_pc st 0x8D -> uint16_t (pc st + 1) = 0xFFFF ->
  step st = OutOfBounds.
Proof.
  intros Hok Hop Htop. rewrite (step_fetch _ _ Hop).
  unfold bind at 1. change (exec 0x8D) with STA_abs.
  unfold STA_abs, bind at 1 2, gets. cbn [pc traced_fetch with_stderr].
  unfold r16, bind, m_get, ret. rewrite Htop. cbn [m traced_fetch with_stderr].
  destruct (Z.leb_spec 0 0xFFFF); [|lia].
  destruct (mem_ok_lookup st 0xFFFF Hok ltac:(unfold MEMSIZE; lia)) as [b ->].
  destruct (Z.leb_spec 0 (0xFFFF + 1)); [|lia].
  cbn [m traced_fetch with_stderr].
  now rewrite (mem_ok_lookup_None st (0xFFFF + 1) Hok) by (unfold MEMSIZE; lia).
Qed.

(** The emulator gets there: on [sta_at_top] the branch is taken (Carry
    is clear after start-up) to 0xFFFE, and the next iteration reads
    outside the array. *)
Lemma main_sta_at_top :
  ret_val (main (inr sta_at_top) 1) = Some tt /\
  pc (run_state sta_at_top 1) = 0xFFFE /\
  opcode_at_pc (run_state sta_at_top 1) 0x8D /\
  main (inr sta_at_top) 2 = OutOfBounds.
Proof. repeat apply conj; vm_compute; reflexivity. Qed.

(** C7.  STA (opcode 0x8D) on a well-formed array.  When the operand
    starts at 0xFFFF (pc is 0xFFFE) both operand bytes can be read by
    [r8], yet the iteration indexes the array at 65536 and nothing is
    stored or printed; [main] reaches such a state on [sta_at_top].  In
    every other state the iteration stores the accumulator through [w8]
    at the little-endian operand address, keeps flags and accumulator,
    moves the program counter three bytes on, and for the operand 0xC000
    leaves the array as it was and appends exactly the accumulator's
    character to the program output. *)
Theorem sta_abs_top_of_memory st :
  mem_ok st -> opcode_at_pc st 0x8D ->
  (exists lo hi,
      r8 (pc st + 1) st = Ret lo st /\ r8 (pc st + 2) st = Ret hi st /\
      (uint16_t (pc st + 1) = 0xFFFF -> step st = OutOfBounds) /\
      (uint16_t (pc st + 1) <> 0xFFFF ->
       exists st' st_w,
         step st = Ret tt st' /\
         w8 (lo + 256 * hi) (a st) st = Ret tt st_w /\
         m st' = m st_w /\ stdout st' = stdout st_w /\
         p st' = p st /\ a st' = a st /\
         pc st' = uint16_t (pc st + 3) /\
         (lo + 256 * hi = 0xC000 ->
          m st' = m st /\
          stdout st'
          = (stdout st ++ String (char_of (a st)) EmptyString)%string) /\
         (lo + 256 * hi <> 0xC000 ->
          m st' = <[Z.to_nat (lo + 256 * hi) := uint8_t (a st)]> (m st) /\
          stdout st' = stdout st))) /\
  mem_ok (run_state sta_at_top 1) /\
  opcode_at_pc (run_state sta_at_top 1) 0x8D /\
  uint16_t (pc (run_state sta_at_top 1) + 1) = 0xFFFF /\
  main (inr sta_at_top) 2 = OutOfBounds.
Proof.
  intros Hok Hop. split.
  - destruct (r8_run st (pc st + 1) Hok) as (lo & Hlo & _).
    destruct (r8_run st (pc st + 2) Hok) as (hi & Hhi & _).
    exists lo, hi. do 2 (split; [assumption|]). split.
    + intros Htop. now apply step_sta_at_top.
    + intros Hne.
      destruct (r16_little_endian st (pc st + 1) Hok Hne)
        as (lo' & hi' & Hlo' & Hhi' & H16).
      replace (pc st + 1 + 1) with (pc st + 2) in Hhi' by lia.
      assert (lo' = lo) by congruence. assert (hi' = hi) by congruence.
      subst lo' hi'.
      assert (Hv : operand16 st (lo + 256 * hi))
        by (unfold operand16; now rewrite H16).
      destruct (sta_abs_spec st _ Hok Hop Hv)
        as (st' & st_w & H1 & H2 & H3 & H4 & H5 & H6 & H7 & _ & H8 & H9).
      exists st', st_w. repeat apply conj; assumption.
  - repeat apply conj; vm_compute; reflexivity.
Qed.

Lemma sta_abs_top_of_memory_example :
  let st := run_state sta_at_top 1 in
  (exists lo hi,
      r8 (pc st + 1) st = Ret lo st /\ r8 (pc st + 2) st = Ret hi st /\
      (uint16_t (pc st + 1) = 0xFFFF -> step st = OutOfBounds) /\
      (uint16_t (pc st + 1) <> 0xFFFF ->
       exists st' st_w,
         step st = Ret tt st' /\
         w8 (lo + 256 * hi) (a st) st = Ret tt st_w /\
         m st' = m st_w /\ stdout st' = stdout st_w /\
         p st' = p st /\ a st' = a st /\
         pc st' = uint16_t (pc st + 3) /\
         (lo + 256 * hi = 0xC000 ->
          m st' = m st /\
          stdout st'
          = (stdout st ++ String (char_of (a st)) EmptyString)%string) /\
         (lo + 256 * hi <> 0xC000 ->
          m st' = <[Z.to_nat (lo + 256 * hi) := uint8_t (a st)]> (m st) /\
          stdout st' = stdout st))) /\
  mem_ok (run_state sta_at_top 1) /\
  opcode_at_pc (run_state sta_at_top 1) 0x8D /\
  uint16_t (pc (run_state sta_at_top 1) + 1) = 0xFFFF /\
  main (inr sta_at_top) 2 = OutOfBounds.
Proof.
  apply (sta_abs_top_of_memory (run_state sta_at_top 1)).
  - split; vm_compute; reflexivity.
  - vm_compute. reflexivity.
Defined.

(** * Computations that return *)

Create HintDb returns.

(** The switch cases other than BRK and the default never call [exit],
    and a preorder that holds across the updates they really make (the
    values they store, the cells [w8] stores to) holds across them. *)
Section Returns.
Variable R : state -> state -> Prop.
Hypothesis R_refl : forall st, R st st.
Hypothesis R_trans : forall st1 st2 st3, R st1 st2 -> R st2 st3 -> R st1 st3.
Hypothesis R_assign_pc : forall v st, R st (with_pc (uint16_t v) st).
Hypothesis R_assign_a : forall v st, R st (with_a (uint8_t v) st).
Hypothesis R_setbit :
  forall k st, k = CF \/ k = ZF \/ k = NF -> R st (with_p (setbit k (p st)) st).
Hypothesis R_clrbit :
  forall k st, k = CF \/ k = ZF \/ k = NF -> R st (with_p (clrbit k (p st)) st).
Hypothesis R_putchar :
  forall c st,
    R st (with_stdout (stdout st ++ String (char_of c) EmptyString) st).
Hypothesis R_store :
  forall i v st,
    0 <= i < 65536 -> i <> 0xC000 ->
    R st (with_m (<[Z.to_nat i := uint8_t v]> (m st)) st).
Hypothesis R_printf :
  forall text st, R st (with_stdout (stdout st ++ text) st).
Hypothesis R_stderr :
  forall text st, R st (with_stderr (stderr st ++ text) st).

Lemma returns_preserves {A} (c : M A) : returns R c -> preserves R c.
Proof.
  intros H st. specialize (H st). now destruct (c st).
Qed.

Lemma returns_ret {A} (v : A) : returns R (ret v).
Proof. intros st. apply R_refl. Qed.

Lemma returns_gets {A} (f : state -> A) : returns R (gets f).
Proof. intros st. apply R_refl. Qed.

Lemma returns_bind {A B} (c : M A) (k : A -> M B) :
  returns R c -> (forall v, returns R (k v)) -> returns R (bind c k).
Proof.
  intros Hc Hk st. unfold bind. specialize (Hc st).
  destruct (c st) as [v st1|code st1|]; [|assumption|exact I].
  specialize (Hk v st1). destruct (k v st1); eauto.
Qed.

Lemma returns_if {A} (b : bool) (c1 c2 : M A) :
  returns R c1 -> returns R c2 -> returns R (if b then c1 else c2).
Proof. now destruct b. Qed.

Lemma returns_m_get i : returns R (m_get i).
Proof.
  intros st. unfold m_get.
  destruct (0 <=? i); [|exact I].
  destruct (m st !! Z.to_nat i); [apply R_refl|exact I].
Qed.

Lemma returns_m_set i v :
  0 <= i < 65536 -> i <> 0xC000 -> returns R (m_set i v).
Proof.
  intros Hi Hne st. unfold m_set.
  destruct (0 <=? i); [|exact I].
  destruct (m st !! Z.to_nat i); [now apply R_store|exact I].
Qed.

Lemma returns_assign_pc v : returns R (assign_pc v).
Proof. intros st. apply R_assign_pc. Qed.

Lemma returns_assign_a v : returns R (assign_a v).
Proof. intros st. apply R_assign_a. Qed.

Lemma returns_set_z : returns R set_z.
Proof. intros st. rewrite set_z_run. apply R_setbit. tauto. Qed.

Lemma returns_clr_z : returns R clr_z.
Proof. intros st. rewrite clr_z_run. apply R_clrbit. tauto. Qed.

Lemma returns_set_n : returns R set_n.
Proof. intros st. rewrite set_n_run. apply R_setbit. tauto. Qed.

Lemma returns_clr_n : returns R clr_n.
Proof. intros st. rewrite clr_n_run. apply R_clrbit. tauto. Qed.

Lemma returns_set_c : returns R set_c.
Proof. intros st. rewrite set_c_run. apply R_setbit. tauto. Qed.

Lemma returns_clr_c : returns R clr_c.
Proof. intros st. rewrite clr_c_run. apply R_clrbit. tauto. Qed.

Lemma returns_get_c : returns R get_c.
Proof. intros st. rewrite get_c_run. apply R_refl. Qed.

#[local] Hint Resolve returns_ret returns_gets returns_bind returns_if
  returns_m_get returns_assign_pc returns_assign_a returns_set_z returns_clr_z
  returns_set_n returns_clr_n returns_set_c returns_clr_c returns_get_c
  : returns.

Lemma returns_r8 addr : returns R (r8 addr).
Proof. unfold r8. auto with returns. Qed.

Lemma returns_r16 addr : returns R (r16 addr).
Proof. unfold r16. auto 6 with returns. Qed.

Lemma returns_w8 addr val : returns R (w8 addr val).
Proof.
  unfold w8. destruct (Z.eqb_spec (uint16_t addr) 0xc000) as [|Hne].
  - intros st. apply R_putchar.
  - apply returns_m_set; [apply uint16_t_range|exact Hne].
Qed.

#[local] Hint Resolve returns_r8 returns_r16 returns_w8 : returns.

Lemma returns_NOP : returns R NOP.
Proof. unfold NOP. auto with returns. Qed.

Lemma returns_CLC : returns R CLC.
Proof. unfold CLC. auto with returns. Qed.

Lemma returns_LDA_imm : returns R LDA_imm.
Proof. unfold LDA_imm, flags_from_a. auto 20 with returns. Qed.

Lemma returns_STA_abs : returns R STA_abs.
Proof. unfold STA_abs. auto 20 with returns. Qed.

Lemma returns_ADC_imm : returns R ADC_imm.
Proof. unfold ADC_imm, flags_from_a. auto 20 with returns. Qed.

Lemma returns_CMP_imm : returns R CMP_imm.
Proof. unfold CMP_imm. auto 20 with returns. Qed.

Lemma returns_BCC_rel : returns R BCC_rel.
Proof. unfold BCC_rel. auto 20 with returns. Qed.

Lemma unknown_opcode_keeps opcode : preserves R (unknown_opcode opcode).
Proof.
  intros st. unfold unknown_opcode, bind, gets, printf, modify, exit.
  apply R_printf.
Qed.

Lemma exec_keeps opcode : preserves R (exec opcode).
Proof.
  unfold exec.
  repeat apply preserves_if;
    first [ apply unknown_opcode_keeps
          | apply preserves_exit, R_refl
          | apply returns_preserves;
            auto using returns_NOP, returns_CLC, returns_LDA_imm,
              returns_STA_abs, returns_ADC_imm, returns_CMP_imm,
              returns_BCC_rel ].
Qed.

Lemma fprintf_stderr_keeps text : preserves R (fprintf_stderr text).
Proof. intros st. unfold fprintf_stderr, modify. apply R_stderr. Qed.

Lemma step_keeps : preserves R step.
Proof.
  unfold step, trace_fetch, trace_regs.
  repeat first
    [ apply returns_preserves, returns_r8
    | apply exec_keeps
    | apply (preserves_gets R R_refl)
    | apply (preserves_bind R R_trans); [|intros ?]
    | apply fprintf_stderr_keeps ].
Qed.

Lemma reachable_keeps st0 st : reachable st0 st -> R st0 st.
Proof.
  apply reachable_preserved; [exact R_refl|exact R_trans|exact step_keeps].
Qed.
End Returns.

(** * Further properties of the emulator *)

Lemma is_byte_uint8_t z : is_byte (uint8_t z) = true.
Proof.
  pose proof (uint8_t_range z). unfold is_byte.
  apply andb_true_intro. split; [apply Z.leb_le|apply Z.ltb_lt]; lia.
Qed.

Lemma is_word_uint16_t z : is_word (uint16_t z) = true.
Proof.
  pose proof (uint16_t_range z). unfold is_word.
  apply andb_true_intro. split; [apply Z.leb_le|apply Z.ltb_lt]; lia.
Qed.

Lemma is_byte_setbit k v : is_byte (setbit k v) = true.
Proof. apply is_byte_uint8_t. Qed.

Lemma is_byte_clrbit k v : is_byte (clrbit k v) = true.
Proof. apply is_byte_uint8_t. Qed.

Lemma final_run_state image n :
  ret_val (main (inr image) n) = Some tt ->
  final_state (main (inr image) n) = Some (run_state image n).
Proof.
  unfold run_state. now destruct (main (inr image) n).
Qed.

Lemma main_reachable image n st :
  final_state (main (inr image) n) = Some st -> reachable (boot_state image) st.
Proof.
  rewrite main_loop. apply loop_reachable. constructor.
Qed.

(** ** Well-formed states *)

Lemma step_wf : preserves (fun st st' => wf_state st -> wf_state st') step.
Proof.
  apply step_keeps; unfold wf_state, regs_ok, mem_ok;
    try solve [ intros; cbn [pc a x y s p m with_pc with_a with_p with_m
                             with_stdout with_stderr];
                rewrite ?is_word_uint16_t, ?is_byte_uint8_t,
                  ?is_byte_setbit, ?is_byte_clrbit; tauto ].
  intros i v st _ _ (Hregs & Hlen & Hall).
  cbn [pc a x y s p m with_m]. split; [exact Hregs|].
  exact (mem_ok_insert st (Z.to_nat i) v (conj Hlen Hall)).
Qed.

Lemma boot_state_wf image : wf_state (boot_state image).
Proof.
  destruct (boot_run image) as (_ & Hpc & Ha & Hx & Hy & Hs & Hp & _ & Hok).
  split; [|exact Hok]. unfold regs_ok. rewrite Hpc, Ha, Hx, Hy, Hs, Hp.
  repeat split.
Qed.

(** X1.  Whatever the image and however many iterations have run, the
    state of the emulator is well formed: pc is below 65536, the
    registers a, x, y, s and p are below 256, and the array still has
    65536 elements that are all bytes. *)
Theorem main_wf image n st :
  final_state (main (inr image) n) = Some st -> wf_state st.
Proof.
  intros Hfin. pose proof (main_reachable _ _ _ Hfin) as Hreach.
  apply (reachable_preserved (fun st st' => wf_state st -> wf_state st')
           (boot_state image) st); auto.
  - apply step_wf.
  - apply boot_state_wf.
Qed.

Lemma main_wf_example : wf_state (run_state alphabet 40).
Proof.
  apply (main_wf alphabet 40). apply final_run_state. vm_compute. reflexivity.
Defined.

(** ** Registers that no instruction uses *)

Lemma step_xys : preserves same_xys step.
Proof.
  apply step_keeps; unfold same_xys; try (intros; now cbn).
  intros st1 st2 st3 (H1 & H2 & H3) (H4 & H5 & H6).
  rewrite H4, H5, H6. auto.
Qed.

Lemma reachable_xys st0 st : reachable st0 st -> same_xys st0 st.
Proof.
  apply reachable_preserved.
  - now intros ?.
  - unfold same_xys. intros st1 st2 st3 (H1 & H2 & H3) (H4 & H5 & H6).
    rewrite H4, H5, H6. auto.
  - apply step_xys.
Qed.

(** X2.  The index registers x and y and the stack pointer s are never
    written: in every state the emulator reaches they are still 0, so
    the trace always shows x: 00 y: 00 s: 0100. *)
Theorem main_xys image n st :
  final_state (main (inr image) n) = Some st ->
  x st = 0 /\ y st = 0 /\ s st = 0.
Proof.
  intros Hfin. pose proof (main_reachable _ _ _ Hfin) as Hreach.
  destruct (reachable_xys _ _ Hreach) as (Hx & Hy & Hs).
  destruct (boot_run image) as (_ & _ & _ & Hx0 & Hy0 & Hs0 & _).
  rewrite Hx, Hy, Hs. auto.
Qed.

Lemma main_xys_example :
  x (run_state alphabet 40) = 0 /\ y (run_state alphabet 40) = 0 /\
  s (run_state alphabet 40) = 0.
Proof.
  apply (main_xys alphabet 40). apply final_run_state. vm_compute. reflexivity.
Defined.

(** ** The cell behind the output device *)

Lemma step_device_cell : preserves same_device_cell step.
Proof.
  apply step_keeps; unfold same_device_cell; try (intros; now cbn).
  - intros st1 st2 st3 H12 H23. now rewrite H23.
  - intros i v st Hi Hne. cbn [m with_m].
    apply list_lookup_insert_ne. lia.
Qed.

(** X3.  No iteration stores to the array cell at 0xC000: in every state
    reached from [st0] that cell holds what it held in [st0]. *)
Theorem device_cell_never_written st0 st :
  reachable st0 st ->
  m st !! Z.to_nat 0xC000 = m st0 !! Z.to_nat 0xC000.
Proof.
  apply (reachable_preserved same_device_cell).
  - now intros ?.
  - unfold same_device_cell. intros st1 st2 st3 H12 H23. now rewrite H23.
  - apply step_device_cell.
Qed.

Lemma device_cell_never_written_example :
  m (run_state alphabet 40) !! Z.to_nat 0xC000
  = m (boot_state alphabet) !! Z.to_nat 0xC000.
Proof.
  apply device_cell_never_written, reachable_run_state.
  vm_compute. reflexivity.
Defined.

(** ** How an iteration ends *)

(** An iteration that does not leave the array has fetched an opcode. *)
Lemma step_fetched st :
  step st <> OutOfBounds -> exists opcode, opcode_at_pc st opcode.
Proof.
  intros H. unfold opcode_at_pc. destruct (r8 (pc st) st) as [v st1|c st1|] eqn:E.
  - now exists v.
  - exfalso. rewrite r8_unfold in E.
    destruct (m st !! Z.to_nat (uint16_t (pc st))); discriminate.
  - exfalso. apply H. unfold step, bind at 1 2, gets. now rewrite E.
Qed.

Lemma trace_regs_run st : trace_regs st = Ret tt (traced_regs st).
Proof. reflexivity. Qed.

(** The outcome of an iteration from the outcome of its switch case. *)
Lemma step_outcome st opcode :
  opcode_at_pc st opcode ->
  step st =
  match exec opcode (traced_fetch opcode st) with
  | Ret _ st1 => Ret tt (traced_regs st1)
  | Exit code st1 => Exit code st1
  | OutOfBounds => OutOfBounds
  end.
Proof.
  intros Hop. rewrite (step_fetch _ _ Hop). unfold bind.
  now destruct (exec opcode (traced_fetch opcode st)).
Qed.

Lemma supported_cases opcode :
  In opcode supported ->
  opcode = 0x00 \/ opcode = 0xEA \/ opcode = 0x18 \/ opcode = 0xA9 \/
  opcode = 0x8D \/ opcode = 0x69 \/ opcode = 0xC9 \/ opcode = 0x90.
Proof. unfold supported. simpl. intuition auto. Qed.

Lemma supported_dec opcode : In opcode supported \/ ~ In opcode supported.
Proof.
  destruct (in_dec Z.eq_dec opcode supported); auto.
Qed.

(** The cases with a handler that returns. *)
Lemma exec_returns R opcode :
  (forall st, R st st) ->
  (forall st1 st2 st3, R st1 st2 -> R st2 st3 -> R st1 st3) ->
  (forall v st, R st (with_pc (uint16_t v) st)) ->
  (forall v st, R st (with_a (uint8_t v) st)) ->
  (forall k st, k = CF \/ k = ZF \/ k = NF -> R st (with_p (setbit k (p st)) st)) ->
  (forall k st, k = CF \/ k = ZF \/ k = NF -> R st (with_p (clrbit k (p st)) st)) ->
  (opcode = 0x8D ->
   (forall c st, R st (with_stdout (stdout st ++ String (char_of c) EmptyString) st)) /\
   (forall i v st, 0 <= i < 65536 -> i <> 0xC000 ->
                   R st (with_m (<[Z.to_nat i := uint8_t v]> (m st)) st))) ->
  In opcode supported -> opcode <> 0x00 ->
  returns R (exec opcode).
Proof.
  intros Hrefl Htrans Hpc Ha Hset Hclr Hsta Hin Hne.
  destruct (supported_cases _ Hin)
    as [->|[->|[->|[->|[->|[->|[->| ->]]]]]]]; [contradiction|..].
  - change (exec 0xEA) with NOP. now apply returns_NOP.
  - change (exec 0x18) with CLC. now apply returns_CLC.
  - change (exec 0xA9) with LDA_imm. now apply returns_LDA_imm.
  - change (exec 0x8D) with STA_abs. destruct (Hsta eq_refl).
    now apply returns_STA_abs.
  - change (exec 0x69) with ADC_imm. now apply returns_ADC_imm.
  - change (exec 0xC9) with CMP_imm. now apply returns_CMP_imm.
  - change (exec 0x90) with BCC_rel. now apply returns_BCC_rel.
Qed.

Lemma exec_never_exits opcode :
  In opcode supported -> opcode <> 0x00 ->
  returns (fun _ _ => True) (exec opcode).
Proof.
  intros Hin Hne. apply exec_returns; try assumption; cbv beta; auto.
Qed.

(** X4.  The loop is left only through BRK, with exit code 0, or through
    a byte that is no supported opcode, with exit code 1: no other
    instruction ends the emulator and no other exit code occurs. *)
Theorem step_exit_reason st code :
  exit_code (step st) = Some code ->
  (opcode_at_pc st 0x00 /\ code = 0) \/
  (exists opcode,
      opcode_at_pc st opcode /\ ~ In opcode supported /\ code = 1).
Proof.
  intros Hexit.
  destruct (step_fetched st) as [opcode Hop].
  { intros E. rewrite E in Hexit. discriminate. }
  rewrite (step_outcome _ _ Hop) in Hexit.
  destruct (supported_dec opcode) as [Hin|Hno].
  - destruct (Z.eq_dec opcode 0x00) as [->|Hne].
    + left. split; [exact Hop|]. cbn in Hexit. congruence.
    + exfalso.
      pose proof (exec_never_exits opcode Hin Hne
                    (traced_fetch opcode st)) as Hret.
      destruct (exec opcode (traced_fetch opcode st)); try discriminate.
      exact Hret.
  - right. exists opcode. split; [exact Hop|]. split; [exact Hno|].
    rewrite (exec_default _ Hno) in Hexit. cbn in Hexit. congruence.
Qed.

Lemma step_exit_reason_example :
  (opcode_at_pc (run_state alphabet 106) 0x00 /\ 0 = 0) \/
  (exists opcode,
      opcode_at_pc (run_state alphabet 106) opcode /\
      ~ In opcode supported /\ 0 = 1).
Proof.
  apply (step_exit_reason (run_state alphabet 106) 0). vm_compute. reflexivity.
Defined.

(** ** The trace *)

Lemma exec_stderr opcode : preserves (fun st st' => stderr st' = stderr st) (exec opcode).
Proof.
  apply exec_keeps; try (intros; now cbn).
  intros st1 st2 st3 H12 H23. now rewrite H23.
Qed.

Lemma append_assoc (s1 s2 s3 : string) :
  ((s1 ++ s2) ++ s3 = s1 ++ (s2 ++ s3))%string.
Proof.
  induction s1 as [|c s1 IH]; [reflexivity|].
  cbn [String.append]. now rewrite IH.
Qed.

(** X5.  Every iteration writes to the diagnostic stream the program
    counter and opcode it fetched, and, when its instruction returns,
    the registers as they are after the instruction, ending the line;
    an iteration that exits leaves the line unfinished. *)
Theorem step_trace st opcode :
  opcode_at_pc st opcode ->
  match step st with
  | Ret _ st' =>
      stderr st' = (stderr st ++ trace_fetch_text (pc st) opcode
                    ++ trace_regs_text st')%string
  | Exit _ st' =>
      stderr st' = (stderr st ++ trace_fetch_text (pc st) opcode)%string
  | OutOfBounds => True
  end.
Proof.
  intros Hop. rewrite (step_outcome _ _ Hop).
  pose proof (exec_stderr opcode (traced_fetch opcode st)) as H.
  destruct (exec opcode (traced_fetch opcode st)) as [[] st1|code st1|];
    [|exact H|exact I].
  cbn [stderr traced_regs with_stderr]. rewrite H.
  cbn [stderr traced_fetch with_stderr]. rewrite append_assoc.
  reflexivity.
Qed.

Lemma step_trace_example :
  match step (boot_state alphabet) with
  | Ret _ st' =>
      stderr st' = (stderr (boot_state alphabet)
                    ++ trace_fetch_text (pc (boot_state alphabet)) 0x18
                    ++ trace_regs_text st')%string
  | Exit _ st' =>
      stderr st' = (stderr (boot_state alphabet)
                    ++ trace_fetch_text (pc (boot_state alphabet)) 0x18)%string
  | OutOfBounds => True
  end.
Proof.
  apply (step_trace (boot_state alphabet) 0x18). vm_compute. reflexivity.
Defined.

(** ** Memory safety *)

(** X6.  On a well-formed array an iteration indexes [m] outside its
    bounds exactly when the opcode at pc is STA and its operand starts
    at the last address 0xFFFF (that is, pc is 0xFFFE): every other
    iteration returns or exits. *)
Theorem step_out_of_bounds_iff st :
  mem_ok st ->
  (step st = OutOfBounds <->
   opcode_at_pc st 0x8D /\ uint16_t (pc st + 1) = 0xFFFF).
Proof.
  intros Hok. split.
  - intros Hoob.
    destruct (r8_run st (pc st) Hok) as (opcode & Hop & _).
    assert (Hopc : opcode_at_pc st opcode)
      by (unfold opcode_at_pc; now rewrite Hop).
    destruct (Z.eq_dec opcode 0x8D) as [->|Hne].
    + split; [exact Hopc|].
      destruct (Z.eq_dec (uint16_t (pc st + 1)) 0xFFFF) as [|Hnt]; [assumption|].
      exfalso. now apply (step_defined st Hok).
    + exfalso. apply (step_defined st Hok); [|exact Hoob].
      intros Hsta. unfold opcode_at_pc in *. congruence.
  - intros [Hop Htop]. now apply step_sta_at_top.
Qed.

Lemma step_out_of_bounds_iff_example :
  step (run_state sta_at_top 1) = OutOfBounds <->
  opcode_at_pc (run_state sta_at_top 1) 0x8D /\
  uint16_t (pc (run_state sta_at_top 1) + 1) = 0xFFFF.
Proof.
  apply (step_out_of_bounds_iff (run_state sta_at_top 1)).
  split; vm_compute; reflexivity.
Defined.

(** ** Which instructions write *)

Lemma step_run_state image n :
  ret_val (main (inr image) (S n)) = Some tt ->
  final_state (step (run_state image n)) = Some (run_state image (S n)).
Proof.
  unfold run_state. rewrite !main_loop.
  replace (S n) with (n + 1)%nat by lia. rewrite loop_add.
  unfold bind. destruct (loop n (boot_state image)) as [[] st1|c st1|];
    try discriminate.
  cbn [loop]. unfold bind, ret.
  destruct (step st1) as [[] st2|c st2|]; try discriminate. reflexivity.
Qed.

Lemma same_mem_out_trans st1 st2 st3 :
  same_mem_out st1 st2 -> same_mem_out st2 st3 -> same_mem_out st1 st3.
Proof. intros [H1 H2] [H3 H4]. split; congruence. Qed.

(** X7.  Among the supported opcodes only STA writes to the array or to
    the program output: an iteration on any other supported opcode
    leaves both as they were. *)
Theorem only_sta_writes st opcode st' :
  opcode_at_pc st opcode -> In opcode supported -> opcode <> 0x8D ->
  final_state (step st) = Some st' ->
  m st' = m st /\ stdout st' = stdout st.
Proof.
  intros Hop Hin Hne Hfin. rewrite (step_outcome _ _ Hop) in Hfin.
  destruct (Z.eq_dec opcode 0x00) as [->|Hne0].
  - cbn in Hfin. injection Hfin as <-. now split.
  - pose proof (exec_returns same_mem_out opcode) as Hret.
    assert (H : returns same_mem_out (exec opcode)).
    { apply Hret; try assumption; unfold same_mem_out;
        try (intros; now cbn).
      apply same_mem_out_trans. }
    specialize (H (traced_fetch opcode st)).
    destruct (exec opcode (traced_fetch opcode st)) as [[] st1|code st1|];
      try contradiction; try discriminate.
    cbn [final_state] in Hfin. injection Hfin as <-.
    destruct H as [Hm Hout].
    cbn [m stdout traced_regs traced_fetch with_stderr] in *. now split.
Qed.

Lemma only_sta_writes_example :
  m (run_state alphabet 2) = m (run_state alphabet 1) /\
  stdout (run_state alphabet 2) = stdout (run_state alphabet 1).
Proof.
  apply (only_sta_writes (run_state alphabet 1) 0xA9 (run_state alphabet 2)).
  - vm_compute. reflexivity.
  - simpl. tauto.
  - lia.
  - apply step_run_state. vm_compute. reflexivity.
Defined.

(** ** The implied-mode instructions *)

(** X8.  BRK (opcode 0x00) ends the emulator with exit code 0 after the
    first half of the trace line: registers, array and program output
    are as before the iteration. *)
Theorem brk_spec st :
  opcode_at_pc st 0x00 ->
  exists st',
    step st = Exit 0 st' /\
    pc st' = pc st /\ a st' = a st /\ x st' = x st /\ y st' = y st /\
    s st' = s st /\ p st' = p st /\ m st' = m st /\ stdout st' = stdout st /\
    stderr st' = (stderr st ++ trace_fetch_text (pc st) 0x00)%string.
Proof.
  intros Hop. eexists. split.
  - eapply step_exit; [exact Hop|]. reflexivity.
  - repeat apply conj; reflexivity.
Qed.

Lemma brk_spec_example :
  let st := run_state alphabet 106 in
  exists st',
    step st = Exit 0 st' /\
    pc st' = pc st /\ a st' = a st /\ x st' = x st /\ y st' = y st /\
    s st' = s st /\ p st' = p st /\ m st' = m st /\ stdout st' = stdout st /\
    stderr st' = (stderr st ++ trace_fetch_text (pc st) 0x00)%string.
Proof.
  apply (brk_spec (run_state alphabet 106)). vm_compute. reflexivity.
Defined.

(** X9.  NOP (opcode 0xEA) only moves the program counter one byte on
    (16-bit arithmetic): registers, flags, array and program output are
    unchanged. *)
Theorem nop_spec st :
  opcode_at_pc st 0xEA ->
  exists st',
    step st = Ret tt st' /\
    pc st' = uint16_t (pc st + 1) /\
    a st' = a st /\ x st' = x st /\ y st' = y st /\ s st' = s st /\
    p st' = p st /\ m st' = m st /\ stdout st' = stdout st.
Proof.
  intros Hop. eexists. split.
  - eapply step_ret; [exact Hop|]. reflexivity.
  - repeat apply conj; reflexivity.
Qed.

Lemma nop_spec_example :
  let st := boot_state [xea] in
  exists st',
    step st = Ret tt st' /\
    pc st' = uint16_t (pc st + 1) /\
    a st' = a st /\ x st' = x st /\ y st' = y st /\ s st' = s st /\
    p st' = p st /\ m st' = m st /\ stdout st' = stdout st.
Proof.
  apply (nop_spec (boot_state [xea])). vm_compute. reflexivity.
Defined.

(** X10.  CLC (opcode 0x18) clears the Carry bit, keeps the other seven
    bits of the flags register, and moves the program counter one byte
    on; accumulator, array and program output are unchanged. *)
Theorem clc_spec st :
  opcode_at_pc st 0x18 ->
  exists st',
    step st = Ret tt st' /\
    flag CF st' = false /\
    (forall i, 0 < i < 8 -> Z.testbit (p st') i = Z.testbit (p st) i) /\
    0 <= p st' < 256 /\
    pc st' = uint16_t (pc st + 1) /\
    a st' = a st /\ m st' = m st /\ stdout st' = stdout st.
Proof.
  intros Hop. eexists. split.
  - eapply step_ret; [exact Hop|]. reflexivity.
  - unfold flag.
    cbn [pc a p m stdout traced_regs traced_fetch with_stderr with_pc with_p].
    repeat apply conj; try reflexivity.
    + unfold CF. now rewrite uint8_t_testbit, Z.land_spec, andb_false_r.
    + intros i Hi. fold (clrbit CF (p st)). unfold CF.
      rewrite clrbit_testbit by lia.
      destruct (Z.ltb_spec i 8), (Z.eqb_spec i 0); try lia.
      now rewrite andb_true_r.
    + apply uint8_t_range.
    + apply uint8_t_range.
Qed.

Lemma clc_spec_example :
  let st := boot_state alphabet in
  exists st',
    step st = Ret tt st' /\
    flag CF st' = false /\
    (forall i, 0 < i < 8 -> Z.testbit (p st') i = Z.testbit (p st) i) /\
    0 <= p st' < 256 /\
    pc st' = uint16_t (pc st + 1) /\
    a st' = a st /\ m st' = m st /\ stdout st' = stdout st.
Proof.
  apply (clc_spec (boot_state alphabet)). vm_compute. reflexivity.
Defined.

(** ** The flag helpers *)

Lemma carry_in_setbit k v :
  0 <= k -> carry_in (setbit k v) = if k =? 0 then 1 else carry_in v.
Proof.
  intros Hk. rewrite !carry_in_testbit, setbit_testbit by lia.
  destruct (Z.eqb_spec 0 k) as [<-|Hne].
  - now rewrite orb_true_r.
  - destruct (Z.eqb_spec k 0); [lia|]. now rewrite orb_false_r.
Qed.

Lemma carry_in_clrbit k v :
  0 <= k -> carry_in (clrbit k v) = if k =? 0 then 0 else carry_in v.
Proof.
  intros Hk. rewrite !carry_in_testbit, clrbit_testbit by lia.
  destruct (Z.eqb_spec 0 k) as [<-|Hne].
  - now rewrite andb_false_r.
  - destruct (Z.eqb_spec k 0); [lia|]. now rewrite andb_true_r.
Qed.

(** X11.  Each of the six flag helpers changes exactly its own bit of
    the flags register (Zero is bit 1, Negative bit 7, Carry bit 0) and
    keeps the other seven; [get_c] then reads 1 after [set_c], 0 after
    [clr_c], and is not disturbed by the Zero and Negative helpers. *)
Theorem flag_helpers_spec st i :
  0 <= i < 8 ->
  let bit_after (c : M unit) :=
    option_map (fun st' => Z.testbit (p st') i) (final_state (c st)) in
  bit_after set_z = Some (if i =? 1 then true else Z.testbit (p st) i) /\
  bit_after clr_z = Some (if i =? 1 then false else Z.testbit (p st) i) /\
  bit_after set_n = Some (if i =? 7 then true else Z.testbit (p st) i) /\
  bit_after clr_n = Some (if i =? 7 then false else Z.testbit (p st) i) /\
  bit_after set_c = Some (if i =? 0 then true else Z.testbit (p st) i) /\
  bit_after clr_c = Some (if i =? 0 then false else Z.testbit (p st) i) /\
  ret_val ((set_c ;; get_c) st) = Some 1 /\
  ret_val ((clr_c ;; get_c) st) = Some 0 /\
  ret_val ((set_z ;; get_c) st) = ret_val (get_c st) /\
  ret_val ((clr_z ;; get_c) st) = ret_val (get_c st) /\
  ret_val ((set_n ;; get_c) st) = ret_val (get_c st) /\
  ret_val ((clr_n ;; get_c) st) = ret_val (get_c st).
Proof.
  intros Hi. cbv zeta. unfold bind.
  rewrite set_c_run, clr_c_run, set_z_run, clr_z_run, set_n_run, clr_n_run.
  rewrite !get_c_run. cbn [p with_p ret_val final_state option_map].
  rewrite !carry_in_setbit, !carry_in_clrbit by (unfold CF, ZF, NF; lia).
  unfold CF, ZF, NF.
  rewrite !setbit_testbit, !clrbit_testbit by lia.
  destruct (Z.ltb_spec i 8); [|lia].
  repeat apply conj; try reflexivity; f_equal;
    match goal with
    | |- context [i =? ?k] =>
        destruct (Z.eqb_spec i k); cbn [andb orb negb];
        rewrite ?orb_true_r, ?orb_false_r, ?andb_true_r, ?andb_false_r;
        reflexivity
    end.
Qed.

Lemma flag_helpers_spec_example :
  let st := run_state alphabet 5 in
  let bit_after (c : M unit) :=
    option_map (fun st' => Z.testbit (p st') 1) (final_state (c st)) in
  bit_after set_z = Some (if 1 =? 1 then true else Z.testbit (p st) 1) /\
  bit_after clr_z = Some (if 1 =? 1 then false else Z.testbit (p st) 1) /\
  bit_after set_n = Some (if 1 =? 7 then true else Z.testbit (p st) 1) /\
  bit_after clr_n = Some (if 1 =? 7 then false else Z.testbit (p st) 1) /\
  bit_after set_c = Some (if 1 =? 0 then true else Z.testbit (p st) 1) /\
  bit_after clr_c = Some (if 1 =? 0 then false else Z.testbit (p st) 1) /\
  ret_val ((set_c ;; get_c) st) = Some 1 /\
  ret_val ((clr_c ;; get_c) st) = Some 0 /\
  ret_val ((set_z ;; get_c) st) = ret_val (get_c st) /\
  ret_val ((clr_z ;; get_c) st) = ret_val (get_c st) /\
  ret_val ((set_n ;; get_c) st) = ret_val (get_c st) /\
  ret_val ((clr_n ;; get_c) st) = ret_val (get_c st).
Proof.
  apply (flag_helpers_spec (run_state alphabet 5) 1). lia.
Defined.

(** ** Writing and reading back *)

Lemma r8_lookup st addr :
  mem_ok st ->
  ret_val (r8 addr st) = m st !! Z.to_nat (uint16_t addr).
Proof.
  intros Hok. destruct (r8_run st addr Hok) as (b & -> & ->). reflexivity.
Qed.

Lemma mem_ok_insert2 st i j u v :
  mem_ok st ->
  mem_ok (with_m (<[j := uint8_t v]> (<[i := uint8_t u]> (m st))) st).
Proof.
  intros [Hlen Hall]. split; cbn [m with_m].
  - now rewrite !length_insert.
  - apply bytes_Forall. repeat apply Forall_insert; try apply uint8_t_range.
    now apply bytes_Forall.
Qed.

(** X12.  A byte stored with [w8] anywhere but at the output device is
    the byte [r8] reads there afterwards, and no other address reads
    differently; a byte stored at 0xC000 is appended to the program
    output instead and the array is left alone. *)
Theorem w8_then_r8 st addr val :
  mem_ok st ->
  exists st',
    w8 addr val st = Ret tt st' /\ mem_ok st' /\
    (uint16_t addr <> 0xC000 ->
     r8 addr st' = Ret (uint8_t val) st' /\ stdout st' = stdout st) /\
    (uint16_t addr = 0xC000 ->
     m st' = m st /\
     stdout st' = (stdout st ++ String (char_of val) EmptyString)%string) /\
    (forall other,
        uint16_t other <> uint16_t addr ->
        ret_val (r8 other st') = ret_val (r8 other st)).
Proof.
  intros Hok. pose proof (uint16_t_range addr) as Hr.
  eexists. split; [apply (w8_run _ _ _ Hok)|].
  destruct (Z.eqb_spec (uint16_t addr) 0xc000) as [Heq|Hne].
  - split; [exact Hok|]. split; [contradiction|]. split; [now intros _|].
    intros other _. now rewrite !r8_lookup.
  - assert (Hok' : mem_ok (with_m (<[Z.to_nat (uint16_t addr) := uint8_t val]> (m st)) st))
      by now apply mem_ok_insert.
    split; [exact Hok'|]. split; [|split; [contradiction|]].
    + intros _. split; [|reflexivity].
      destruct (r8_run _ addr Hok') as (b & Hb & Hl). rewrite Hb.
      cbn [m with_m] in Hl. rewrite list_lookup_insert_eq in Hl.
      * now injection Hl as <-.
      * destruct Hok as [Hlen _]. unfold MEMSIZE in Hlen. lia.
    + intros other Hother. pose proof (uint16_t_range other).
      rewrite !r8_lookup by assumption. cbn [m with_m].
      apply list_lookup_insert_ne. lia.
Qed.

Lemma w8_then_r8_example :
  let st := boot_state alphabet in
  exists st',
    w8 0x0200 0x41 st = Ret tt st' /\ mem_ok st' /\
    (uint16_t 0x0200 <> 0xC000 ->
     r8 0x0200 st' = Ret (uint8_t 0x41) st' /\ stdout st' = stdout st) /\
    (uint16_t 0x0200 = 0xC000 ->
     m st' = m st /\
     stdout st' = (stdout st ++ String (char_of 0x41) EmptyString)%string) /\
    (forall other,
        uint16_t other <> uint16_t 0x0200 ->
        ret_val (r8 other st') = ret_val (r8 other st)).
Proof.
  apply (w8_then_r8 (boot_state alphabet) 0x0200 0x41).
  split; vm_compute; reflexivity.
Defined.

Lemma word_of_bytes v :
  0 <= v < 65536 ->
  uint8_t (Z.land v 0xFF) + 256 * uint8_t (Z.shiftr v 8) = v.
Proof.
  intros Hv. change 255 with (Z.ones 8).
  rewrite Z.land_ones, Z.shiftr_div_pow2 by lia. change (2 ^ 8) with 256.
  unfold uint8_t. rewrite Z.mod_mod by lia.
  rewrite (Z.mod_small (v / 256)).
  - symmetry. rewrite Z.add_comm. apply Z.div_mod. lia.
  - split; [apply Z.div_pos; lia|apply Z.div_lt_upper_bound; lia].
Qed.

(** X13.  A word stored with [w16] below the last address is the word
    [r16] reads there afterwards (low byte first), whatever the address,
    the output device's included; nothing is printed and the bytes at
    all other addresses read as before. *)
Theorem w16_then_r16 st addr val :
  mem_ok st -> uint16_t addr <> 0xFFFF ->
  exists st',
    w16 addr val st = Ret tt st' /\ mem_ok st' /\
    r16 addr st' = Ret (uint16_t val) st' /\
    r8 addr st' = Ret (uint8_t val) st' /\
    stdout st' = stdout st /\
    (forall other,
        uint16_t other <> uint16_t addr ->
        uint16_t other <> uint16_t addr + 1 ->
        ret_val (r8 other st') = ret_val (r8 other st)).
Proof.
  intros Hok Hne. pose proof (uint16_t_range addr) as Hr.
  pose proof (uint16_t_range val) as Hv.
  assert (Hnext : uint16_t (addr + 1) = uint16_t addr + 1).
  { unfold uint16_t in *. rewrite <- Zplus_mod_idemp_l. apply Z.mod_small. lia. }
  eexists. split; [apply (w16_run _ _ _ Hok); unfold MEMSIZE; lia|].
  set (lo := uint8_t (Z.land (uint16_t val) 255)).
  set (hi := uint8_t (Z.shiftr (uint16_t val) 8)).
  set (st' := with_m _ st).
  assert (Hok' : mem_ok st') by (apply mem_ok_insert2, Hok).
  assert (Hlen : Z.of_nat (length (m st)) = 65536) by apply Hok.
  assert (Hlo : m st' !! Z.to_nat (uint16_t addr) = Some lo).
  { unfold st'. cbn [m with_m]. rewrite list_lookup_insert_ne by lia.
    apply list_lookup_insert_eq. lia. }
  assert (Hhi : m st' !! Z.to_nat (uint16_t (addr + 1)) = Some hi).
  { unfold st'. cbn [m with_m]. rewrite Hnext.
    apply list_lookup_insert_eq. rewrite length_insert. lia. }
  destruct (r16_little_endian st' addr Hok' Hne) as (lo' & hi' & Hr8 & Hr8' & Hr16).
  assert (lo' = lo).
  { pose proof (r8_lookup st' addr Hok') as E. rewrite Hr8, Hlo in E.
    now injection E. }
  assert (hi' = hi).
  { pose proof (r8_lookup st' (addr + 1) Hok') as E. rewrite Hr8', Hhi in E.
    now injection E. }
  subst lo' hi'.
  split; [exact Hok'|]. split; [|split; [|split; [reflexivity|]]].
  - rewrite Hr16. f_equal. apply word_of_bytes, Hv.
  - rewrite Hr8. f_equal. apply low_byte.
  - intros other H1 H2. pose proof (uint16_t_range other).
    rewrite !r8_lookup by assumption. unfold st'. cbn [m with_m].
    rewrite !list_lookup_insert_ne by lia. reflexivity.
Qed.

Lemma w16_then_r16_example :
  let st := boot_state alphabet in
  exists st',
    w16 0xC000 0x1234 st = Ret tt st' /\ mem_ok st' /\
    r16 0xC000 st' = Ret (uint16_t 0x1234) st' /\
    r8 0xC000 st' = Ret (uint8_t 0x1234) st' /\
    stdout st' = stdout st /\
    (forall other,
        uint16_t other <> uint16_t 0xC000 ->
        uint16_t other <> uint16_t 0xC000 + 1 ->
        ret_val (r8 other st') = ret_val (r8 other st)).
Proof.
  apply (w16_then_r16 (boot_state alphabet) 0xC000 0x1234).
  - split; vm_compute; reflexivity.
  - vm_compute. discriminate.
Defined.

(** ** Start-up *)

Lemma r16_state addr st v st' : r16 addr st = Ret v st' -> st' = st.
Proof.
  unfold r16, bind, m_get, ret.
  destruct (0 <=? uint16_t addr); [|discriminate].
  destruct (m st !! Z.to_nat (uint16_t addr)); [|discriminate].
  destruct (0 <=? uint16_t addr + 1); [|discriminate].
  destruct (m st !! Z.to_nat (uint16_t addr + 1)); [|discriminate].
  now intros [= _ <-].
Qed.

Lemma reset_mem st st' :
  mem_ok st -> reset st = Ret tt st' ->
  m st' = <[Z.to_nat 0xFFFD := 0]> (<[Z.to_nat 0xFFFC := 0]> (m st)).
Proof.
  intros Hok. unfold reset, bind.
  rewrite w16_run by (exact Hok || reflexivity).
  destruct (r16 0xFFFC _) as [v st2|c st2|] eqn:E; try discriminate.
  apply r16_state in E. subst st2.
  cbn [assign_pc assign_a assign_x assign_y assign_s assign_p modify].
  intros [= <-]. reflexivity.
Qed.

(** X14.  Whatever the registers and the array hold when the file has
    been read, the reset sequence of [main] (reset vector, pc from it,
    registers cleared) never fails on an array of 65536 bytes: it leaves
    pc and all registers 0, prints nothing, makes the reset vector read
    as 0, and changes the array only at 0xFFFC and 0xFFFD, which are
    overwritten with 0 whatever was read there. *)
Theorem reset_spec st i :
  mem_ok st -> 0 <= i < 65536 ->
  exists st',
    reset st = Ret tt st' /\
    pc st' = 0 /\ a st' = 0 /\ x st' = 0 /\ y st' = 0 /\ s st' = 0 /\
    p st' = 0 /\ stdout st' = stdout st /\ mem_ok st' /\
    r16 0xFFFC st' = Ret 0 st' /\
    m st' !! Z.to_nat i
    = (if (i =? 0xFFFC) || (i =? 0xFFFD) then Some 0 else m st !! Z.to_nat i).
Proof.
  intros Hok Hi.
  destruct (reset_run st Hok)
    as (st' & Hrun & Hpc & Ha & Hx & Hy & Hs & Hp & Hout & Hok').
  exists st'. do 9 (split; [assumption|]).
  pose proof (reset_mem st st' Hok Hrun) as Hm.
  assert (Hlen : Z.of_nat (length (m st)) = 65536) by apply Hok.
  assert (Hcell : forall j, 0 <= j < 65536 ->
            m st' !! Z.to_nat j
            = (if (j =? 0xFFFC) || (j =? 0xFFFD) then Some 0
               else m st !! Z.to_nat j)).
  { intros j Hj. rewrite Hm.
    destruct (Z.eqb_spec j 0xFFFD) as [->|H1].
    - rewrite orb_true_r. apply list_lookup_insert_eq.
      rewrite length_insert. lia.
    - rewrite orb_false_r, list_lookup_insert_ne by lia.
      destruct (Z.eqb_spec j 0xFFFC) as [->|H2].
      + apply list_lookup_insert_eq. lia.
      + now rewrite list_lookup_insert_ne by lia. }
  split; [|now apply Hcell].
  assert (Hne : uint16_t 0xFFFC <> 0xFFFF)
    by (change (uint16_t 0xFFFC) with 0xFFFC; lia).
  destruct (r16_little_endian st' 0xFFFC Hok' Hne)
    as (lo & hi & Hlo & Hhi & H16).
  pose proof (r8_lookup st' 0xFFFC Hok') as Elo.
  pose proof (r8_lookup st' (0xFFFC + 1) Hok') as Ehi.
  rewrite Hlo in Elo. rewrite Hhi in Ehi.
  change (uint16_t 0xFFFC) with 0xFFFC in Elo.
  change (uint16_t (0xFFFC + 1)) with 0xFFFD in Ehi.
  rewrite Hcell in Elo by lia. rewrite Hcell in Ehi by lia.
  cbn in Elo, Ehi. injection Elo as ->. injection Ehi as ->.
  exact H16.
Qed.

Lemma reset_spec_example :
  let st := run_state alphabet 5 in
  exists st',
    reset st = Ret tt st' /\
    pc st' = 0 /\ a st' = 0 /\ x st' = 0 /\ y st' = 0 /\ s st' = 0 /\
    p st' = 0 /\ stdout st' = stdout st /\ mem_ok st' /\
    r16 0xFFFC st' = Ret 0 st' /\
    m st' !! Z.to_nat 0xFFFC
    = (if (0xFFFC =? 0xFFFC) || (0xFFFC =? 0xFFFD) then Some 0
       else m st !! Z.to_nat 0xFFFC).
Proof.
  apply (reset_spec (run_state alphabet 5) 0xFFFC).
  - split; vm_compute; reflexivity.
  - lia.
Defined.

(** ** Instruction sequences *)

Lemma r8_congr z1 z2 st : uint16_t z1 = uint16_t z2 -> r8 z1 st = r8 z2 st.
Proof. intros H. rewrite !r8_unfold. now rewrite H. Qed.

Lemma uint16_t_add_l z k : uint16_t (uint16_t z + k) = uint16_t (z + k).
Proof. unfold uint16_t. apply Zplus_mod_idemp_l. Qed.

(** The byte [k] positions after pc, seen from a state with the same
    array whose pc has moved [d] positions on. *)
Lemma r8_moved st st1 d k v :
  m st1 = m st -> pc st1 = uint16_t (pc st + d) ->
  ret_val (r8 (pc st + (d + k)) st) = Some v ->
  ret_val (r8 (pc st1 + k) st1) = Some v.
Proof.
  intros Hm Hpc Hv. rewrite Hpc.
  rewrite (r8_congr _ (pc st + (d + k))).
  - now rewrite (r8_ret_val _ _ _ Hv st1 Hm).
  - rewrite uint16_t_add_l. f_equal. lia.
Qed.

Lemma loop_2 st st1 st2 :
  step st = Ret tt st1 -> step st1 = Ret tt st2 -> loop 2 st = Ret tt st2.
Proof.
  intros H1 H2. cbn [loop]. unfold bind. now rewrite H1, H2.
Qed.

(** X15.  CMP #v followed by BCC is a branch on "less than": after the
    two iterations the program counter is at the branch target
    pc + 4 + signed(b) when a < v and behind the branch at pc + 4
    otherwise (16-bit arithmetic); accumulator, array and program output
    are unchanged. *)
Theorem cmp_bcc_spec st v b :
  opcode_at_pc st 0xC9 -> operand8 st v ->
  ret_val (r8 (pc st + 2) st) = Some 0x90 ->
  ret_val (r8 (pc st + 3) st) = Some b ->
  exists st2,
    loop 2 st = Ret tt st2 /\
    pc st2 = (if a st <? v then uint16_t (pc st + 4 + int8_t b)
              else uint16_t (pc st + 4)) /\
    a st2 = a st /\ m st2 = m st /\ stdout st2 = stdout st.
Proof.
  intros Hop Hv Hop2 Hb.
  pose proof (step_ret _ _ _ Hop (CMP_imm_run st 0xC9 v Hv)) as H1.
  set (st1 := traced_regs _) in H1.
  assert (Hm1 : m st1 = m st) by reflexivity.
  assert (Hpc1 : pc st1 = uint16_t (pc st + 2)) by reflexivity.
  assert (Hop1 : opcode_at_pc st1 0x90).
  { unfold opcode_at_pc. rewrite <- (Z.add_0_r (pc st1)).
    apply (r8_moved st st1 2 0 _ Hm1 Hpc1). exact Hop2. }
  assert (Hb1 : operand8 st1 b).
  { unfold operand8. apply (r8_moved st st1 2 1 _ Hm1 Hpc1). exact Hb. }
  pose proof (step_ret _ _ _ Hop1 (BCC_rel_run st1 0x90 b Hb1)) as H2.
  eexists. split; [exact (loop_2 _ _ _ H1 H2)|].
  cbn [pc a m stdout traced_regs traced_fetch with_stderr with_pc].
  split; [|now repeat split].
  rewrite Hpc1. unfold st1.
  cbn [p traced_regs traced_fetch with_stderr with_pc with_p].
  rewrite carry_in_testbit, cmp_flags_testbit by lia.
  cbn [Z.ltb Z.eqb Z.compare andb].
  destruct (Z.ltb_spec (a st) v), (Z.leb_spec v (a st)); try lia;
    cbn [Z.b2z Z.eqb Pos.eqb]; rewrite <- ?Z.add_assoc, uint16_t_add_l;
    f_equal; lia.
Qed.

Lemma cmp_bcc_spec_example :
  let st := run_state alphabet 4 in
  exists st2,
    loop 2 st = Ret tt st2 /\
    pc st2 = (if a st <? 0x5B then uint16_t (pc st + 4 + int8_t 0xF7)
              else uint16_t (pc st + 4)) /\
    a st2 = a st /\ m st2 = m st /\ stdout st2 = stdout st.
Proof.
  apply (cmp_bcc_spec (run_state alphabet 4) 0x5B 0xF7); vm_compute; reflexivity.
Defined.

(** X16.  LDA #c followed by STA 0xC000 prints the character c: after
    the two iterations exactly that character has been appended to the
    program output, the array is unchanged, c is in the accumulator and
    the program counter is five bytes on. *)
Theorem lda_sta_prints st c :
  mem_ok st ->
  opcode_at_pc st 0xA9 -> operand8 st c ->
  ret_val (r8 (pc st + 2) st) = Some 0x8D ->
  ret_val (r8 (pc st + 3) st) = Some 0x00 ->
  ret_val (r8 (pc st + 4) st) = Some 0xC0 ->
  uint16_t (pc st + 3) <> 0xFFFF ->
  exists st2,
    loop 2 st = Ret tt st2 /\
    stdout st2 = (stdout st ++ String (char_of c) EmptyString)%string /\
    m st2 = m st /\ a st2 = c /\ pc st2 = uint16_t (pc st + 5).
Proof.
  intros Hok Hop Hc Hop2 Hlo Hhi Htop.
  pose proof (step_ret _ _ _ Hop (LDA_imm_run st 0xA9 c Hc)) as H1.
  set (st1 := traced_regs _) in H1.
  assert (Hm1 : m st1 = m st) by reflexivity.
  assert (Hpc1 : pc st1 = uint16_t (pc st + 2)) by reflexivity.
  assert (Hok1 : mem_ok st1) by exact Hok.
  assert (Hop1 : opcode_at_pc st1 0x8D).
  { unfold opcode_at_pc. rewrite <- (Z.add_0_r (pc st1)).
    apply (r8_moved st st1 2 0 _ Hm1 Hpc1). exact Hop2. }
  assert (Hne1 : uint16_t (pc st1 + 1) <> 0xFFFF).
  { rewrite Hpc1, uint16_t_add_l. now replace (pc st + 2 + 1) with (pc st + 3) by lia. }
  destruct (r16_little_endian st1 (pc st1 + 1) Hok1 Hne1)
    as (lo & hi & Hr8 & Hr8' & Hr16).
  assert (lo = 0x00).
  { pose proof (r8_moved st st1 2 1 _ Hm1 Hpc1 Hlo) as E.
    rewrite Hr8 in E. now injection E. }
  assert (hi = 0xC0).
  { pose proof (r8_moved st st1 2 2 _ Hm1 Hpc1 Hhi) as E.
    replace (pc st1 + 2) with (pc st1 + 1 + 1) in E by lia.
    rewrite Hr8' in E. now injection E. }
  subst lo hi.
  assert (H16 : operand16 st1 0xC000) by (unfold operand16; now rewrite Hr16).
  pose proof (step_ret _ _ _ Hop1 (STA_abs_run st1 0x8D _ Hok1 H16)) as H2.
  eexists. split; [exact (loop_2 _ _ _ H1 H2)|].
  change (0xC000 =? 0xc000) with true. cbv iota.
  cbn [pc a m stdout traced_regs traced_fetch with_stderr with_stdout with_pc].
  rewrite Hpc1, uint16_t_add_l.
  unfold st1. cbn [pc a m stdout traced_regs traced_fetch with_stderr with_pc with_p with_a].
  repeat apply conj; try reflexivity. f_equal. lia.
Qed.

Lemma lda_sta_prints_example :
  let st := run_state alphabet 1 in
  exists st2,
    loop 2 st = Ret tt st2 /\
    stdout st2 = (stdout st ++ String (char_of 0x41) EmptyString)%string /\
    m st2 = m st /\ a st2 = 0x41 /\ pc st2 = uint16_t (pc st + 5).
Proof.
  apply (lda_sta_prints (run_state alphabet 1) 0x41).
  - split; vm_compute; reflexivity.
  - vm_compute. reflexivity.
  - vm_compute. reflexivity.
  - vm_compute. reflexivity.
  - vm_compute. reflexivity.
  - vm_compute. reflexivity.
  - vm_compute. discriminate.
Defined.

(** X17.  BCC with offset 0xFE (-2) and Carry clear branches to itself:
    from such a state the emulator never exits and never leaves the
    array, however many iterations it runs, and registers, array and
    program output stay as they are. *)
Theorem bcc_self_loop st n :
  0 <= pc st < 65536 ->
  opcode_at_pc st 0x90 -> operand8 st 0xFE -> flag CF st = false ->
  exists st',
    loop n st = Ret tt st' /\
    pc st' = pc st /\ a st' = a st /\ p st' = p st /\
    m st' = m st /\ stdout st' = stdout st.
Proof.
  revert st. induction n as [|n IH]; intros st Hpc Hop Hb Hc.
  - exists st. now repeat split.
  - pose proof (step_ret _ _ _ Hop (BCC_rel_run st 0x90 _ Hb)) as H1.
    set (st1 := traced_regs _) in H1.
    assert (Hp1 : p st1 = p st) by reflexivity.
    assert (Hm1 : m st1 = m st) by reflexivity.
    assert (Hpc1 : pc st1 = pc st).
    { unfold st1. cbn [pc traced_regs with_stderr with_pc].
      rewrite carry_in_testbit. unfold flag, CF in Hc. rewrite Hc.
      cbn [Z.b2z Z.eqb]. change (int8_t 0xFE) with (-2).
      replace (pc st + 2 + -2) with (pc st) by lia.
      now apply uint16_t_small. }
    destruct (IH st1) as (st' & Hrun & H2 & H3 & H4 & H5 & H6).
    + now rewrite Hpc1.
    + unfold opcode_at_pc in *. rewrite Hpc1.
      now rewrite (r8_ret_val _ _ _ Hop st1 Hm1).
    + unfold operand8 in *. rewrite Hpc1.
      now rewrite (r8_ret_val _ _ _ Hb st1 Hm1).
    + unfold flag in *. now rewrite Hp1.
    + exists st'. split.
      * cbn [loop]. unfold bind. now rewrite H1.
      * rewrite H2, H3, H4, H5, H6, Hpc1, Hp1, Hm1. now repeat split.
Qed.

Lemma bcc_self_loop_example :
  let st := boot_state [x90; xfe] in
  exists st',
    loop 1000 st = Ret tt st' /\
    pc st' = pc st /\ a st' = a st /\ p st' = p st /\
    m st' = m st /\ stdout st' = stdout st.
Proof.
  apply (bcc_self_loop (boot_state [x90; xfe]) 1000); vm_compute;
    try reflexivity.
  split; [discriminate|reflexivity].
Defined.
